(** * Expense ledger bot: the store (db.py), the message parser (utils.py)
      and the handlers that write to the store (bot.py).

    The TEXT values of the store (items, dates, categories) and the texts
    that the formatting functions build are modelled as [string], the
    bytes of their UTF-8 encoding.  A message text, which the parser
    inspects character by character, is a list of Unicode code points; what
    the interpreter's character database says of the code points above
    ASCII, and its limit on the digits of an integer literal, are a
    parameter of the parser.  Python [int] values are [Z]; an amount bound
    to an INTEGER column and the sums SQLite computes are held to the
    signed 64-bit range.  User ids come from Telegram and record ids from
    the store itself: both are in that range and are not checked again.
    The SQLite file is modelled as an explicit state that every store
    function threads through a small state-and-exception monad. *)

From Stdlib Require Import ZArith List String Ascii Bool Lia.
From Stdlib Require Import Sorted Permutation DecimalString DecimalN.
Import ListNotations.

Local Open Scope string_scope.
Local Open Scope list_scope.
Local Open Scope Z_scope.

(* ================================================================== *)
(** ** Text as the store and the formatting functions see it *)

Module Text.

(** Characters '0'..'9'. *)
Definition isdecimal_char (c : ascii) : bool :=
  let n := N_of_ascii c in ((48 <=? n) && (n <=? 57))%N.

Fixpoint forall_chars (p : ascii -> bool) (s : string) : bool :=
  match s with
  | EmptyString => true
  | String c s' => p c && forall_chars p s'
  end.

(** [sep.join(parts)] *)
Fixpoint join (sep : string) (parts : list string) : string :=
  match parts with
  | [] => EmptyString
  | [p] => p
  | p :: ps => p ++ sep ++ join sep ps
  end.

(** Decimal digits of a natural number, as [str(n)] prints them. *)
Definition digits (n : N) : string := NilEmpty.string_of_uint (N.to_uint n).

Fixpoint zeros (k : nat) : string :=
  match k with
  | O => EmptyString
  | S k' => String "0" (zeros k')
  end.

Definition zfill (width : nat) (s : string) : string :=
  zeros (width - String.length s) ++ s.

(** [f"{n:0<width>d}"]: sign-aware zero padding to [width] characters. *)
Definition format_0d (width : nat) (n : Z) : string :=
  if n <? 0 then String "-" (zfill (width - 1) (digits (Z.to_N (- n))))
  else zfill width (digits (Z.to_N n)).

(** ASCII case folding, as SQLite applies it to identifiers and in LIKE. *)
Definition lower (c : ascii) : ascii :=
  let n := N_of_ascii c in
  if ((65 <=? n) && (n <=? 90))%N then ascii_of_N (n + 32) else c.

Definition eqb_nocase_char (a b : ascii) : bool :=
  Ascii.eqb (lower a) (lower b).

Fixpoint eqb_nocase (a b : string) : bool :=
  match a, b with
  | EmptyString, EmptyString => true
  | String x a', String y b' => eqb_nocase_char x y && eqb_nocase a' b'
  | _, _ => false
  end.

(** SQLite's [s LIKE p] with the default settings: [%] matches any run of
    characters, [_] any single character, every other pattern character
    matches itself up to ASCII case. *)
Fixpoint like (p s : string) : bool :=
  match p with
  | EmptyString =>
      match s with EmptyString => true | _ => false end
  | String c p' =>
      if Ascii.eqb c "%" then
        (fix any (s : string) : bool :=
           like p' s ||
           match s with
           | EmptyString => false
           | String _ s' => any s'
           end) s
      else
        match s with
        | EmptyString => false
        | String d s' =>
            (Ascii.eqb c "_" || eqb_nocase_char c d) && like p' s'
        end
  end.

(** [s] without the occurrences of [c]. *)
Fixpoint remove_char (c : ascii) (s : string) : string :=
  match s with
  | EmptyString => EmptyString
  | String x s' =>
      if Ascii.eqb x c then remove_char c s' else String x (remove_char c s')
  end.

(** Positional reading of decimal digits, most significant first. *)
Fixpoint horner_uint (acc : N) (d : Decimal.uint) : N :=
  match d with
  | Decimal.Nil => acc
  | Decimal.D0 l => horner_uint (10 * acc) l
  | Decimal.D1 l => horner_uint (10 * acc + 1) l
  | Decimal.D2 l => horner_uint (10 * acc + 2) l
  | Decimal.D3 l => horner_uint (10 * acc + 3) l
  | Decimal.D4 l => horner_uint (10 * acc + 4) l
  | Decimal.D5 l => horner_uint (10 * acc + 5) l
  | Decimal.D6 l => horner_uint (10 * acc + 6) l
  | Decimal.D7 l => horner_uint (10 * acc + 7) l
  | Decimal.D8 l => horner_uint (10 * acc + 8) l
  | Decimal.D9 l => horner_uint (10 * acc + 9) l
  end%N.

Fixpoint horner (acc : N) (s : string) : N :=
  match s with
  | EmptyString => acc
  | String c s' => horner (10 * acc + (N_of_ascii c - 48))%N s'
  end.

(** Characters of a formatted year or month: a decimal digit or the sign. *)
Definition plain (c : ascii) : bool := isdecimal_char c || Ascii.eqb c "-".

(** Reading a digit string back as a number. *)
Definition value (s : string) : N :=
  match NilEmpty.uint_of_string s with
  | Some d => N.of_uint d
  | None => 0%N
  end.

End Text.
(* ================================================================== *)
(** ** Exceptions and machine integers *)

Module Py.

Inductive exn :=
| ValueError (msg : string)
(** the ValueError that [int()] raises on a literal it cannot read; its
    text is built by [int()] from the literal *)
| ValueErrorInt (literal : list N)
(** the ValueError that [int()] raises on a literal of more digits than
    the interpreter's limit; its text gives the limit and the count *)
| ValueErrorDigits (limit digits : N)
| OperationalError (msg : string)
| OverflowError (msg : string)
| UnicodeEncodeError.

(** What a call produces: a value, or a raised exception. *)
Inductive outcome (A : Type) :=
| Ok (a : A)
| Raise (e : exn).
Arguments Ok {A} a.
Arguments Raise {A} e.

(** [except ValueError] *)
Definition is_ValueError (e : exn) : bool :=
  match e with
  | ValueError _ | ValueErrorInt _ | ValueErrorDigits _ _ => true
  | _ => false
  end.

(** The range of SQLite's INTEGER. *)
Definition in_int64 (z : Z) : bool := (- 2 ^ 63 <=? z) && (z <? 2 ^ 63).

End Py.

(* ================================================================== *)
(** ** Python [str] over Unicode *)

Module Str.
Import Py.

Definition text := list N.

(** What the interpreter brings with it.  Of a code point above ASCII,
    the Unicode character database says whether [str.isspace] holds of it,
    whether [str.isdigit] holds of it (Numeric_Type Digit or Decimal), and
    its digit value when it is a decimal digit (category Nd).
    [max_str_digits] is [sys.get_int_max_str_digits()]: 0 where there is no
    limit, 4300 by default where there is one. *)
Record runtime := mkRuntime {
  ucd_space : N -> bool;
  ucd_digit : N -> bool;
  ucd_decimal : N -> option N;
  max_str_digits : N
}.

(** The text of a [string] of ASCII characters. *)
Definition of_string (s : string) : text :=
  map N_of_ascii (list_ascii_of_string s).

Definition ascii_digit (c : N) : bool := ((48 <=? c) && (c <=? 57))%N.

(** C's [isspace] on ASCII, which [int()] uses once the text is ASCII. *)
Definition c_space (c : N) : bool :=
  ((9 <=? c) && (c <=? 13) || (c =? 32))%N.

Section Runtime.
Variable R : runtime.

(** [c.isspace()]: in ASCII, TAB..CR, FS..US and SPACE. *)
Definition isspace_char (c : N) : bool :=
  (if c <? 128
   then (9 <=? c) && (c <=? 13) || (28 <=? c) && (c <=? 32)
   else ucd_space R c)%N.

(** [c.isdigit()] *)
Definition isdigit_char (c : N) : bool :=
  (if c <? 128 then ascii_digit c else ucd_digit R c)%N.

(** The digit value of a decimal digit, from 0 to 9. *)
Definition decimal_value (c : N) : option N :=
  (if c <? 128
   then if ascii_digit c then Some (c - 48) else None
   else match ucd_decimal R c with
        | Some d => if d <=? 9 then Some d else None
        | None => None
        end)%N.

(** [s.isdigit()]: every character is a digit and there is at least one. *)
Definition isdigit (s : text) : bool :=
  match s with
  | [] => false
  | _ => forallb isdigit_char s
  end.

Fixpoint lstrip (s : text) : text :=
  match s with
  | [] => []
  | c :: s' => if isspace_char c then lstrip s' else s
  end.

Fixpoint rstrip (s : text) : text :=
  match s with
  | [] => []
  | c :: s' =>
      match rstrip s' with
      | [] => if isspace_char c then [] else [c]
      | r => c :: r
      end
  end.

(** [s.strip()] *)
Definition strip (s : text) : text := rstrip (lstrip s).

(** [s.split()] with no separator: maximal runs of non-whitespace
    characters.  [cur] is the run being read. *)
Fixpoint split_from (cur s : text) : list text :=
  match s with
  | [] =>
      match cur with [] => [] | _ => [cur] end
  | c :: s' =>
      if isspace_char c then
        match cur with
        | [] => split_from [] s'
        | _ => cur :: split_from [] s'
        end
      else split_from (cur ++ [c]) s'
  end.

Definition split (s : text) : list text := split_from [] s.

(** [sep.join(parts)] *)
Fixpoint join (sep : text) (parts : list text) : text :=
  match parts with
  | [] => []
  | [p] => p
  | p :: ps => p ++ sep ++ join sep ps
  end.

(** *** [int(s)]

    [int] first rewrites the text into ASCII: an ASCII character below
    DEL stays, any other whitespace becomes a space, any other decimal
    digit becomes the ASCII digit of its value; at anything else the
    rewriting puts a question mark and stops. *)
Definition to_ascii (c : N) : option N :=
  (if c <? 127 then Some c
   else if isspace_char c then Some 32
   else match decimal_value c with
        | Some d => Some (48 + d)
        | None => None
        end)%N.

Fixpoint rewrite_ascii (s : text) : list N :=
  match s with
  | [] => []
  | c :: s' =>
      match to_ascii c with
      | Some a => a :: rewrite_ascii s'
      | None => [63%N]
      end
  end.

(** A text that is ASCII already is taken as it is. *)
Definition transform (s : text) : list N :=
  if forallb (fun c => c <? 128)%N s then s else rewrite_ascii s.

Fixpoint drop_c_space (s : list N) : list N :=
  match s with
  | [] => []
  | c :: s' => if c_space c then drop_c_space s' else s
  end.

(** The run of digits and underscores at the head of [s], read in base
    10, the number of its digits, and what follows it.  An underscore may
    only stand between two digits. *)
Fixpoint scan (after_underscore : bool) (acc digits : N) (s : list N)
  : option (N * N * list N) :=
  match s with
  | [] => if after_underscore then None else Some (acc, digits, [])
  | c :: s' =>
      if ascii_digit c
      then scan false (10 * acc + (c - 48))%N (digits + 1)%N s'
      else if (c =? 95)%N then
        if after_underscore then None else scan true acc digits s'
      else if after_underscore then None else Some (acc, digits, s)
  end.

(** The limit applies to literals of more than 640 digits. *)
Definition too_many (digits : N) : bool :=
  ((640 <? digits) && (0 <? max_str_digits R)
   && (max_str_digits R <? digits))%N.

Inductive literal :=
| Value (v : N)
| Invalid
| TooLong (digits : N).

(** A digit first, then digits and underscores, then blanks only. *)
Definition unsigned (s : list N) : literal :=
  match s with
  | [] => Invalid
  | c :: _ =>
      if ascii_digit c then
        match scan false 0 0 s with
        | Some (v, n, rest) =>
            if too_many n then TooLong n
            else
              match drop_c_space rest with
              | [] => Value v
              | _ => Invalid
              end
        | None => Invalid
        end
      else Invalid
  end.

(** [int(s)] in base 10 *)
Definition int (s : text) : outcome Z :=
  match drop_c_space (transform s) with
  | [] => Raise (ValueErrorInt s)
  | c :: b =>
      let negative := (c =? 45)%N in
      let body := if (c =? 45)%N || (c =? 43)%N then b else c :: b in
      match unsigned body with
      | Value v => Ok (if negative then - Z.of_N v else Z.of_N v)
      | Invalid => Raise (ValueErrorInt s)
      | TooLong n => Raise (ValueErrorDigits (max_str_digits R) n)
      end
  end.

(** A token: at least one character, none of them whitespace. *)
Definition is_token (s : text) : bool :=
  match s with
  | [] => false
  | _ => forallb (fun c => negb (isspace_char c)) s
  end.

End Runtime.

(** The UTF-8 encoding of a [str], which the driver binds as a TEXT
    value; a surrogate has none. *)
Definition utf8_char (c : N) : option string :=
  let byte (n : N) := ascii_of_N n in
  (if c <? 128 then Some (String (byte c) EmptyString)
   else if c <? 2048 then
     Some (String (byte (192 + c / 64))
             (String (byte (128 + c mod 64)) EmptyString))
   else if c <? 65536 then
     if (55296 <=? c) && (c <=? 57343) then None
     else
       Some (String (byte (224 + c / 4096))
               (String (byte (128 + (c / 64) mod 64))
                  (String (byte (128 + c mod 64)) EmptyString)))
   else if c <? 1114112 then
     Some (String (byte (240 + c / 262144))
             (String (byte (128 + (c / 4096) mod 64))
                (String (byte (128 + (c / 64) mod 64))
                   (String (byte (128 + c mod 64)) EmptyString))))
   else None)%N.

Fixpoint utf8 (s : text) : option string :=
  match s with
  | [] => Some EmptyString
  | c :: s' =>
      match utf8_char c, utf8 s' with
      | Some b, Some r => Some (b ++ r)%string
      | _, _ => None
      end
  end.

(** A runtime for examples, with an excerpt of the character database:
    the whitespace above ASCII, the superscript digits, the Arabic-Indic
    decimal digits, and the default limit. *)
Definition excerpt : runtime :=
  mkRuntime
    (fun c => (c =? 133) || (c =? 160) || (c =? 5760)
              || (8192 <=? c) && (c <=? 8202)
              || (c =? 8232) || (c =? 8233) || (c =? 8239)
              || (c =? 8287) || (c =? 12288))%N
    (fun c => (c =? 178) || (c =? 179) || (c =? 185)
              || (1632 <=? c) && (c <=? 1641))%N
    (fun c => if ((1632 <=? c) && (c <=? 1641))%N
              then Some (c - 1632)%N else None)
    4300.

End Str.

(* ================================================================== *)
(** ** The fragments of SQL the store uses *)

Module Sql.
Import Py.

Section OrderBy.
Context {A : Type} (leb : A -> A -> bool).

Fixpoint insert_sorted (x : A) (l : list A) : list A :=
  match l with
  | [] => [x]
  | y :: l' => if leb x y then x :: l else y :: insert_sorted x l'
  end.

(** [ORDER BY]: the rows sorted so that [leb] holds along the result;
    rows that compare equal keep their order. *)
Fixpoint order_by (l : list A) : list A :=
  match l with
  | [] => []
  | x :: l' => insert_sorted x (order_by l')
  end.

End OrderBy.

(** The running total of [SUM] over integers: it is kept in 64 bits,
    and is lost ([None]) once an addition leaves them. *)
Fixpoint running_sum (acc : Z) (xs : list Z) : option Z :=
  match xs with
  | [] => Some acc
  | x :: xs' =>
      if in_int64 (acc + x) then running_sum (acc + x) xs' else None
  end.

(** [SUM(x)]: NULL over no rows; "integer overflow" when the running
    total was lost. *)
Definition sum (xs : list Z) : outcome (option Z) :=
  match xs with
  | [] => Ok None
  | _ =>
      match running_sum 0 xs with
      | Some t => Ok (Some t)
      | None => Raise (OperationalError "integer overflow")
      end
  end.

Definition coalesce {A : Type} (x : option A) (default : A) : A :=
  match x with
  | Some v => v
  | None => default
  end.

Definition nullif (x : option string) (y : string) : option string :=
  match x with
  | Some v => if String.eqb v y then None else Some v
  | None => None
  end.

(** The values of [ks], each once. *)
Fixpoint distinct (ks : list string) : list string :=
  match ks with
  | [] => []
  | k :: ks' => k :: filter (fun k' => negb (String.eqb k' k)) (distinct ks')
  end.

(** TEXT compares byte by byte. *)
Definition text_asc (a b : string) : bool := String.leb a b.

Definition group_of (k : string) (kvs : list (string * Z)) : list Z :=
  map snd (filter (fun kv => String.eqb (fst kv) k) kvs).

Fixpoint traverse {A B : Type} (f : A -> outcome B) (l : list A)
  : outcome (list B) :=
  match l with
  | [] => Ok []
  | x :: l' =>
      match f x with
      | Raise e => Raise e
      | Ok y =>
          match traverse f l' with
          | Raise e => Raise e
          | Ok ys => Ok (y :: ys)
          end
      end
  end.

(** [SELECT k, COALESCE(SUM(v), 0) ... GROUP BY k]: SQLite sorts the rows
    by key and runs one [SUM] per key, over the rows of that key in the
    order they came in; the groups come out in ascending order of the
    key. *)
Definition group_sum (kvs : list (string * Z)) : outcome (list (string * Z)) :=
  traverse
    (fun k =>
       match sum (group_of k kvs) with
       | Ok t => Ok (k, coalesce t 0)
       | Raise e => Raise e
       end)
    (order_by text_asc (distinct (map fst kvs))).

(** [ORDER BY] over computed rows goes through SQLite's sorter, which
    hands rows that compare equal back in the reverse of the order it took
    them in.  SQL itself leaves their order open. *)
Definition sorter {A : Type} (leb : A -> A -> bool) (l : list A) : list A :=
  order_by leb (rev l).

End Sql.

(* ================================================================== *)
(** ** db.py *)

Module Db.
Import Text Py Sql.

(** One row of table [expenses]. *)
Record expense := mkExpense {
  id : Z;
  user_id : Z;
  item : string;
  amount : Z;
  date : string;
  category : option string
}.

(** Table [expenses]: its column names as [PRAGMA table_info] lists them,
    its rows in rowid order of insertion, and the AUTOINCREMENT counter
    kept in [sqlite_sequence]. *)
Record table := mkTable {
  columns : list string;
  rows : list expense;
  seq : Z
}.

(** The database file: [None] while it has no [expenses] table. *)
Definition database := option table.

(** A computation on an open connection: it returns or raises, and leaves
    the database in a new state either way.  The functions below run one
    data statement each, so there is nothing to roll back when one raises;
    the schema statements of [_ensure_schema] take effect as they run,
    also in the functions that only read. *)
Definition Conn (A : Type) : Type := database -> outcome A * database.

Definition ret {A} (a : A) : Conn A := fun db => (Ok a, db).
Definition raise {A} (e : exn) : Conn A := fun db => (Raise e, db).
Definition bind {A B} (c : Conn A) (k : A -> Conn B) : Conn B :=
  fun db =>
    match c db with
    | (Ok a, db') => k a db'
    | (Raise e, db') => (Raise e, db')
    end.

Notation "x <- c ;; k" := (bind c (fun x => k))
  (at level 61, c at next level, right associativity).
Notation "c ;; k" := (bind c (fun _ => k))
  (at level 61, right associativity).

(** A value or an exception that does not touch the database. *)
Definition lift {A} (o : outcome A) : Conn A := fun db => (o, db).

Definition result {A} (c : Conn A) (db : database) : outcome A := fst (c db).
Definition state_after {A} (c : Conn A) (db : database) : database :=
  snd (c db).

(** *** Statements *)

Definition base_columns : list string :=
  ["id"; "user_id"; "item"; "amount"; "date"].

Definition has_column (name : string) (t : table) : bool :=
  existsb (eqb_nocase name) (columns t).

(** [CREATE TABLE IF NOT EXISTS expenses (...)] *)
Definition create_table_if_not_exists : Conn unit :=
  fun db =>
    match db with
    | None => (Ok tt, Some (mkTable base_columns [] 0))
    | Some _ => (Ok tt, db)
    end.

(** [PRAGMA table_info(expenses)], column [name] of each row. *)
Definition pragma_table_info : Conn (list string) :=
  fun db =>
    match db with
    | None => (Ok [], db)
    | Some t => (Ok (columns t), db)
    end.

Definition forget_category (r : expense) : expense :=
  mkExpense (id r) (user_id r) (item r) (amount r) (date r) None.

(** [ALTER TABLE expenses ADD COLUMN category TEXT]: existing rows read
    NULL in the new column. *)
Definition alter_table_add_category : Conn unit :=
  fun db =>
    match db with
    | None => (Raise (OperationalError "no such table: expenses"), db)
    | Some t =>
        if has_column "category" t then
          (Raise (OperationalError "duplicate column name: category"), db)
        else
          (Ok tt, Some (mkTable (columns t ++ ["category"])
                                (map forget_category (rows t)) (seq t)))
    end.

(** The table a statement runs on, once its column names resolve. *)
Definition resolve (names : list string) : Conn table :=
  fun db =>
    match db with
    | None => (Raise (OperationalError "no such table: expenses"), db)
    | Some t =>
        if forallb (fun n => has_column n t) names then (Ok t, db)
        else (Raise (OperationalError "no such column"), db)
    end.

Definition max_rowid (rs : list expense) : Z :=
  fold_right Z.max 0 (map id rs).

(** [INSERT INTO expenses (user_id, item, amount, date, category) VALUES
    (?, ?, ?, ?, ?)]: once the statement is prepared the driver binds the
    values, and refuses an amount outside 64 bits; AUTOINCREMENT gives the
    row an id above every id the table ever held. *)
Definition insert_row (u : Z) (it : string) (amt : Z) (d : string)
    (cat : option string) : Conn unit :=
  t <- resolve ["user_id"; "item"; "amount"; "date"; "category"] ;;
  if negb (in_int64 amt) then
    raise (OverflowError "Python int too large to convert to SQLite INTEGER")
  else
    let new_id := Z.max (seq t) (max_rowid (rows t)) + 1 in
    fun _ =>
      (Ok tt, Some (mkTable (columns t)
                            (rows t ++ [mkExpense new_id u it amt d cat])
                            new_id)).

(** [SELECT ... FROM expenses WHERE cond] *)
Definition select_where (names : list string) (cond : expense -> bool)
  : Conn (list expense) :=
  t <- resolve names ;;
  ret (filter cond (rows t)).

(** [DELETE FROM expenses WHERE cond], returning [cur.rowcount]. *)
Definition delete_where (names : list string) (cond : expense -> bool)
  : Conn Z :=
  t <- resolve names ;;
  fun _ =>
    (Ok (Z.of_nat (List.length (filter cond (rows t)))),
     Some (mkTable (columns t)
                   (filter (fun r => negb (cond r)) (rows t)) (seq t))).

Definition id_asc (a b : expense) : bool := id a <=? id b.
Definition id_desc (a b : expense) : bool := id b <=? id a.
Definition total_desc (a b : string * Z) : bool := snd b <=? snd a.

(** *** The functions of db.py *)

Definition _ensure_schema : Conn unit :=
  create_table_if_not_exists ;;
  cols <- pragma_table_info ;;
  if negb (existsb (String.eqb "category") cols)
  then alter_table_add_category
  else ret tt.

Definition _init_db_sync : Conn unit := _ensure_schema.

Definition _add_expense_sync (u : Z) (it : string) (amt : Z) (date_str : string)
    (cat : option string) : Conn unit :=
  _ensure_schema ;;
  insert_row u it amt date_str cat.

Definition _get_all_expenses_sync (u : Z) : Conn (list (string * Z * string)) :=
  _ensure_schema ;;
  rs <- select_where ["item"; "amount"; "date"; "user_id"; "id"]
          (fun r => user_id r =? u) ;;
  ret (map (fun r => (item r, amount r, date r)) (order_by id_asc rs)).

Definition _get_expenses_by_date_sync (u : Z) (date_str : string)
  : Conn (list (string * Z * string)) :=
  _ensure_schema ;;
  rs <- select_where ["item"; "amount"; "date"; "user_id"; "id"]
          (fun r => (user_id r =? u) && String.eqb (date r) date_str) ;;
  ret (map (fun r => (item r, amount r, date r)) (order_by id_asc rs)).

Definition ym_prefix (year month : Z) : string :=
  (format_0d 4 year ++ "-" ++ format_0d 2 month ++ "-")%string.

Definition in_month (u year month : Z) (r : expense) : bool :=
  (user_id r =? u) && like (ym_prefix year month ++ "%") (date r).

Definition _get_month_total_sync (u year month : Z) : Conn Z :=
  _ensure_schema ;;
  rs <- select_where ["amount"; "user_id"; "date"] (in_month u year month) ;;
  row0 <- lift (sum (map amount rs)) ;;
  ret (coalesce row0 0).

Definition _get_last_expense_sync (u : Z)
  : Conn (option (Z * string * Z * string * option string)) :=
  _ensure_schema ;;
  rs <- select_where ["id"; "item"; "amount"; "date"; "category"; "user_id"]
          (fun r => user_id r =? u) ;;
  match order_by id_desc rs with
  | [] => ret None
  | row :: _ =>
      ret (Some (id row, item row, amount row, date row, category row))
  end.

Definition _delete_expense_sync (u expense_id : Z) : Conn Z :=
  _ensure_schema ;;
  delete_where ["user_id"; "id"]
    (fun r => (user_id r =? u) && (id r =? expense_id)).

(** [COALESCE(NULLIF(category, ''), 'Boshqa')] *)
Definition cat (r : expense) : string :=
  coalesce (nullif (category r) EmptyString) "Boshqa".

Definition _get_month_category_totals_sync (u year month : Z)
  : Conn (list (string * Z)) :=
  _ensure_schema ;;
  rs <- select_where ["category"; "amount"; "user_id"; "date"]
          (in_month u year month) ;;
  groups <- lift (group_sum (map (fun r => (cat r, amount r)) rs)) ;;
  ret (sorter total_desc groups).

Definition _delete_all_expenses_sync (u : Z) : Conn Z :=
  _ensure_schema ;;
  delete_where ["user_id"] (fun r => user_id r =? u).

(** The public coroutines hand the call to a worker thread and await its
    result. *)
Definition init_db : Conn unit := _init_db_sync.
Definition add_expense (u : Z) (it : string) (amt : Z) (date_str : string)
    (cat : option string) : Conn unit :=
  _add_expense_sync u it amt date_str cat.
Definition get_all_expenses (u : Z) := _get_all_expenses_sync u.
Definition get_expenses_by_date (u : Z) (date_str : string) :=
  _get_expenses_by_date_sync u date_str.
Definition get_month_total (u year month : Z) :=
  _get_month_total_sync u year month.
Definition get_last_expense (u : Z) := _get_last_expense_sync u.
Definition delete_expense (u expense_id : Z) :=
  _delete_expense_sync u expense_id.
Definition get_month_category_totals (u year month : Z) :=
  _get_month_category_totals_sync u year month.
Definition delete_all_expenses (u : Z) := _delete_all_expenses_sync u.

(** [ORDER BY date ASC, id ASC]: TEXT compares by code point, ties on the
    date fall back on the id. *)
Definition date_id_asc (a b : expense) : bool :=
  match String.compare (date a) (date b) with
  | Lt => true
  | Eq => id a <=? id b
  | Gt => false
  end.

Definition _get_expenses_by_month_sync (u year month : Z)
  : Conn (list (Z * string * Z * string * option string)) :=
  _ensure_schema ;;
  rs <- select_where ["id"; "item"; "amount"; "date"; "category"; "user_id"]
          (in_month u year month) ;;
  ret (map (fun row => (id row, item row, amount row, date row, category row))
           (order_by date_id_asc rs)).

Definition get_expenses_by_month (u year month : Z) :=
  _get_expenses_by_month_sync u year month.

End Db.

(* ================================================================== *)
(** ** utils.py *)

Module Utils.
Import Text Py.

Definition msg_empty : string := "Matn bo'sh bo'lmasligi kerak.".
Definition msg_format : string :=
  "Format: 'mahsulot summasi' (masalan: 'non 5000').".
Definition msg_not_integer : string :=
  "Summani butun son ko'rinishida yozing (masalan: 12000).".
Definition msg_negative : string :=
  "Summaning qiymati manfiy bo'lmasligi kerak.".
Definition msg_no_item : string := "Mahsulot nomi ko'rsatilmagan.".

Definition is_empty (s : Str.text) : bool :=
  match s with [] => true | _ => false end.

Section Parser.
Variable R : Str.runtime.

(** [text] is a [str], so the [or] that guards against None returns
    [text] itself. *)
Definition parse_expense_message (text : Str.text) : outcome (Str.text * Z) :=
  let s := Str.strip R text in
  if is_empty s then Raise (ValueError msg_empty) else
  let parts := Str.split R s in
  if (List.length parts <? 2)%nat then Raise (ValueError msg_format) else
  let amount_str := last parts [] in
  let item := Str.strip R (Str.join [32%N] (removelast parts)) in
  if negb (Str.isdigit R amount_str) then Raise (ValueError msg_not_integer)
  else
    match Str.int R amount_str with
    | Raise e => Raise e
    | Ok amount =>
        if amount <? 0 then Raise (ValueError msg_negative)
        else if is_empty item then Raise (ValueError msg_no_item)
        else Ok (item, amount)
    end.

(** What the parser makes of the tokens of a text. *)
Definition parse_tokens (parts : list Str.text) : outcome (Str.text * Z) :=
  match parts with
  | [] => Raise (ValueError msg_empty)
  | [_] => Raise (ValueError msg_format)
  | _ =>
      if negb (Str.isdigit R (last parts []))
      then Raise (ValueError msg_not_integer)
      else
        match Str.int R (last parts []) with
        | Raise e => Raise e
        | Ok amount => Ok (Str.join [32%N] (removelast parts), amount)
        end
  end.

End Parser.

(** [str(n)] *)
Definition str_int (n : Z) : string :=
  if n <? 0 then String "-" (digits (Z.to_N (- n))) else digits (Z.to_N n).

(** The digits of a number with the separator of the format option [,]:
    a comma before every group of three digits counted from the right. *)
Fixpoint commas (s : string) : string :=
  match s with
  | EmptyString => EmptyString
  | String c s' =>
      let k := String.length s' in
      if ((0 <? k) && (k mod 3 =? 0))%nat
      then String c (String "," (commas s'))
      else String c (commas s')
  end.

(** [f"{n:,}"] *)
Definition format_comma (n : Z) : string :=
  if n <? 0 then String "-" (commas (digits (Z.to_N (- n))))
  else commas (digits (Z.to_N n)).

(** [s.replace(old, new)] for one-character [old] and [new]. *)
Fixpoint replace_char (old new : ascii) (s : string) : string :=
  match s with
  | EmptyString => EmptyString
  | String c s' =>
      String (if Ascii.eqb c old then new else c) (replace_char old new s')
  end.

Definition format_amount (amount : Z) : string :=
  replace_char "," " " (format_comma amount ++ " so'm").

Definition newline : string := String (ascii_of_N 10) EmptyString.

Section Report.
(** The two characters of the report's literals that lie above code point
    255, the dash between item and amount and the sign before the total,
    stand as they are. *)
Variables (em_dash money_bag : string).

Definition expense_line (item : string) (amount : Z) : string :=
  ("<b>" ++ item ++ "</b> " ++ em_dash ++ " <b>"
   ++ format_amount amount ++ "</b>")%string.

Definition total_line (total : Z) : string :=
  (money_bag ++ " Jami: <b>" ++ format_amount total ++ "</b>")%string.

(** One turn of the loop over [rows]. *)
Definition report_step (acc : list string * Z) (row : string * Z * string)
  : list string * Z :=
  let '(lines, total) := acc in
  let '(item, amount, _) := row in
  (lines ++ [expense_line item amount], total + amount).

Definition format_expenses_with_total (rows : list (string * Z * string))
  : string :=
  let '(lines, total) := fold_left report_step rows ([], 0) in
  join newline (lines ++ [total_line total]).

End Report.

End Utils.

(* ================================================================== *)
(** ** bot.py: the handlers, as far as they touch the store *)

Module Bot.
Import Text Py Db Utils.

(** [try: body except Exception: ...]: the handler logs, replies and
    returns normally. *)
Definition try_except (body : Conn unit) : Conn unit :=
  fun db =>
    match body db with
    | (Ok _, db') => (Ok tt, db')
    | (Raise _, db') => (Ok tt, db')
    end.

Definition cmd_hisobot (u : Z) : Conn unit :=
  try_except (_ <- get_all_expenses u ;; ret tt).

Definition cmd_bugun (u : Z) (today : string) : Conn unit :=
  try_except (_ <- get_expenses_by_date u today ;; ret tt).

Definition cmd_oylik (u year month : Z) : Conn unit :=
  try_except (_ <- get_month_total u year month ;; ret tt).

Definition cmd_undo (u : Z) : Conn unit :=
  try_except
    (last <- get_last_expense u ;;
     match last with
     | None => ret tt
     | Some (exp_id, _, _, _, _) =>
         _ <- delete_expense u exp_id ;; ret tt
     end).

Definition cmd_clear (u : Z) : Conn unit :=
  try_except (_ <- delete_all_expenses u ;; ret tt).

Section TextMessages.
Variable R : Str.runtime.

(** [add_expense] called with a [str] item: the driver binds the item
    inside the INSERT, after [_ensure_schema] has run, as the TEXT value
    that is its UTF-8 encoding, and raises when it has none. *)
Definition add_expense_str (u : Z) (item : Str.text) (amount : Z)
    (date_str : string) : Conn unit :=
  match Str.utf8 item with
  | Some it => add_expense u it amount date_str None
  | None => _ensure_schema ;; raise UnicodeEncodeError
  end.

(** [today_str] is [datetime.now().strftime("%Y-%m-%d")]. *)
Definition handle_expense_message (u : Z) (text : Str.text)
    (today_str : string) : Conn unit :=
  match parse_expense_message R text with
  | Raise e => if is_ValueError e then ret tt else raise e
  | Ok (item, amount) =>
      try_except (add_expense_str u item amount today_str)
  end.

(** An incoming message, after routing. *)
Inductive update :=
| Hisobot (u : Z)
| Bugun (u : Z) (today : string)
| Oylik (u year month : Z)
| Undo (u : Z)
| Clear (u : Z)
| TextMessage (u : Z) (text : Str.text) (today_str : string).

Definition handle (upd : update) : Conn unit :=
  match upd with
  | Hisobot u => cmd_hisobot u
  | Bugun u today => cmd_bugun u today
  | Oylik u y m => cmd_oylik u y m
  | Undo u => cmd_undo u
  | Clear u => cmd_clear u
  | TextMessage u text today_str => handle_expense_message u text today_str
  end.

(** The states of the database file over the life of the bot: [main] runs
    [init_db] on a new file, then the dispatcher runs one handler per
    update. *)
Inductive reachable : database -> Prop :=
| reach_init : reachable (state_after init_db None)
| reach_restart db : reachable db -> reachable (state_after init_db db)
| reach_update db upd :
    reachable db -> reachable (state_after (handle upd) db).

End TextMessages.

End Bot.

(* ================================================================== *)
(** ** The vocabulary of the statements *)

Module Ledger.
Import Text Py Sql Db.

Definition full_columns : list string := base_columns ++ ["category"].

Definition rows_of (db : database) : list expense :=
  match db with
  | Some t => rows t
  | None => []
  end.

Definition seq_of (db : database) : Z :=
  match db with
  | Some t => seq t
  | None => 0
  end.

(** The records a user owns, in stored order. *)
Definition ledger (u : Z) (db : database) : list expense :=
  filter (fun r => user_id r =? u) (rows_of db).

(** The file once [_ensure_schema] has run on it. *)
Definition opened (db : database) : database :=
  Some (mkTable full_columns (rows_of db) (seq_of db)).

(** What SQLite maintains for a table created by [_ensure_schema], with
    or without the later [category] column: ids are distinct, grow along
    the rows and never exceed the AUTOINCREMENT counter; a table without
    the column holds no category. *)
Definition store_inv (db : database) : Prop :=
  match db with
  | None => True
  | Some t =>
      (columns t = full_columns \/
       (columns t = base_columns /\
        Forall (fun r => category r = None) (rows t))) /\
      StronglySorted Z.lt (map id (rows t)) /\
      Forall (fun r => id r <= seq t) (rows t) /\
      0 <= seq t
  end.

(** The states a new file goes through under calls of the public
    functions of db.py, whatever their arguments. *)
Inductive store_reachable : database -> Prop :=
| sr_new : store_reachable None
| sr_init db : store_reachable db -> store_reachable (state_after init_db db)
| sr_add db u it amt d c :
    store_reachable db ->
    store_reachable (state_after (add_expense u it amt d c) db)
| sr_get_all db u :
    store_reachable db -> store_reachable (state_after (get_all_expenses u) db)
| sr_by_date db u d :
    store_reachable db ->
    store_reachable (state_after (get_expenses_by_date u d) db)
| sr_month_total db u y m :
    store_reachable db ->
    store_reachable (state_after (get_month_total u y m) db)
| sr_last db u :
    store_reachable db -> store_reachable (state_after (get_last_expense u) db)
| sr_delete db u eid :
    store_reachable db ->
    store_reachable (state_after (delete_expense u eid) db)
| sr_category_totals db u y m :
    store_reachable db ->
    store_reachable (state_after (get_month_category_totals u y m) db)
| sr_delete_all db u :
    store_reachable db ->
    store_reachable (state_after (delete_all_expenses u) db).

Definition triple (r : expense) : string * Z * string :=
  (item r, amount r, date r).

Definition quintuple (r : expense)
  : Z * string * Z * string * option string :=
  (id r, item r, amount r, date r, category r).

Definition total (rs : list expense) : Z :=
  fold_right Z.add 0 (map amount rs).

(** The spec's month test: owner and date prefix [YYYY-MM-]. *)
Definition dated_in (u year month : Z) (r : expense) : bool :=
  (user_id r =? u) && prefix (ym_prefix year month) (date r).

(** The running totals that [SUM] goes through on [xs], from [acc]. *)
Fixpoint partial_sums (acc : Z) (xs : list Z) : list Z :=
  match xs with
  | [] => []
  | x :: xs' => (acc + x) :: partial_sums (acc + x) xs'
  end.

(** Every running total of the amounts of [rs], taken in the order of
    [rs], is in the 64-bit range. *)
Definition sums_fit (rs : list expense) : bool :=
  forallb in_int64 (partial_sums 0 (map amount rs)).

Definition integer_overflow : exn := OperationalError "integer overflow".

(** The sum of the amounts of [rs] where every running total fits, the
    error of SQLite where one does not. *)
Definition checked_total (rs : list expense) : outcome Z :=
  if sums_fit rs then Ok (total rs) else Raise integer_overflow.

Definition too_large : exn :=
  OverflowError "Python int too large to convert to SQLite INTEGER".

(** The records of one category. *)
Definition in_category (k : string) (rs : list expense) : list expense :=
  filter (fun r => String.eqb (cat r) k) rs.

(** What one row adds to the totals of the categories [keys]. *)
Definition share (r : expense) (keys : list string) : Z :=
  fold_right Z.add 0
    (map (fun k => if String.eqb (cat r) k then amount r else 0) keys).

(** What [int] rewrites a digit into: an ASCII digit, or a space or a
    question mark. *)
Definition digit_space_mark (a : N) : bool :=
  Str.ascii_digit a || (a =? 32)%N || (a =? 63)%N.

(** [n] calls in a row. *)
Fixpoint times (n : nat) (c : Conn unit) : Conn unit :=
  match n with
  | O => ret tt
  | S n' => c ;; times n' c
  end.

(** The data-model invariant on amounts. *)
Definition amounts_nonneg (db : database) : Prop :=
  Forall (fun r => 0 <= amount r) (rows_of db).

(** A file as the bot keeps it. *)
Definition kept (db : database) : Prop := store_inv db /\ amounts_nonneg db.

(** The order of [ORDER BY date ASC, id ASC]. *)
Definition by_date_then_id (a b : expense) : Prop :=
  String.compare (date a) (date b) = Lt \/
  (date a = date b /\ id a <= id b).

Definition sum_totals (groups : list (string * Z)) : Z :=
  fold_right Z.add 0 (map snd groups).

(** A record as the bot writes it: the encoding of some words separated
    by single spaces as the item, an amount from 0 to 2^63 - 1, no
    category. *)
Definition well_formed (R : Str.runtime) (r : expense) : Prop :=
  (exists ws, ws <> [] /\ Forall (fun t => Str.is_token R t = true) ws /\
              Str.utf8 (Str.join [32%N] ws) = Some (item r)) /\
  0 <= amount r < 2 ^ 63 /\
  category r = None.

(** The scenario of the spec: three records of user 1. *)
Definition scenario : database :=
  state_after (add_expense 1 "rent" 500000 "2024-04-01" None)
    (state_after (add_expense 1 "coffee" 12000 "2024-03-15" None)
       (state_after (add_expense 1 "bread" 5000 "2024-03-01" None) None)).

End Ledger.

(* ================================================================== *)
(** * Facts about the text primitives *)

Import Text Py Sql Db Utils Bot Ledger.

Section StringFacts.

Lemma append_empty_r (s : string) : (s ++ EmptyString)%string = s.
Proof. induction s as [|c s IH]; simpl; [reflexivity | now rewrite IH]. Qed.

Lemma append_assoc (a b c : string) :
  ((a ++ b) ++ c)%string = (a ++ (b ++ c))%string.
Proof. induction a as [|x a IH]; simpl; [reflexivity | now rewrite IH]. Qed.

Lemma prefix_empty (s : string) : prefix EmptyString s = true.
Proof. now destruct s. Qed.

Lemma prefix_cons (a b : ascii) (s1 s2 : string) :
  prefix (String a s1) (String b s2) = Ascii.eqb a b && prefix s1 s2.
Proof.
  simpl. destruct (ascii_dec a b) as [->|Hne].
  - now rewrite Ascii.eqb_refl.
  - destruct (Ascii.eqb_spec a b); [contradiction | reflexivity].
Qed.

Lemma prefix_append (a s : string) : prefix a (a ++ s) = true.
Proof.
  induction a as [|c a IH]; [apply prefix_empty|].
  change (String c a ++ s)%string with (String c (a ++ s)).
  now rewrite prefix_cons, Ascii.eqb_refl.
Qed.

Lemma forall_chars_append (p : ascii -> bool) (a b : string) :
  forall_chars p (a ++ b) = forall_chars p a && forall_chars p b.
Proof.
  induction a as [|c a IH]; simpl; [reflexivity|].
  now rewrite IH, andb_assoc.
Qed.

End StringFacts.

Section LikeFacts.

Lemma plain_not_wildcard (c : ascii) :
  plain c = true -> Ascii.eqb c "%" = false /\ Ascii.eqb c "_" = false.
Proof.
  destruct c as [[] [] [] [] [] [] [] []]; try discriminate; now split.
Qed.

Lemma plain_nocase (c d : ascii) :
  plain c = true -> eqb_nocase_char c d = Ascii.eqb c d.
Proof.
  destruct c as [[] [] [] [] [] [] [] []]; try discriminate; intros _;
    destruct d as [[] [] [] [] [] [] [] []]; reflexivity.
Qed.

Lemma like_percent (s : string) : like "%" s = true.
Proof.
  induction s as [|c s IH]; [reflexivity|].
  simpl in *. exact IH.
Qed.

(** On a pattern of plain characters closed by [%], LIKE is a prefix test. *)
Lemma like_prefix (pre s : string) :
  forall_chars plain pre = true ->
  like (pre ++ "%") s = prefix pre s.
Proof.
  revert s. induction pre as [|c pre IH]; intros s Hp.
  - rewrite prefix_empty. apply like_percent.
  - simpl in Hp. apply andb_prop in Hp as [Hc Hpre].
    destruct (plain_not_wildcard c Hc) as [H1 H2].
    change (String c pre ++ "%")%string with (String c (pre ++ "%")).
    destruct s as [|d s].
    + simpl. now rewrite H1.
    + rewrite prefix_cons.
      change (like (String c (pre ++ "%")) (String d s))
        with (if Ascii.eqb c "%" then
                (fix any (s : string) : bool :=
                   like (pre ++ "%") s ||
                   match s with
                   | EmptyString => false
                   | String _ s' => any s'
                   end) (String d s)
              else (Ascii.eqb c "_" || eqb_nocase_char c d)
                   && like (pre ++ "%") s).
      rewrite H1, H2, (plain_nocase c d Hc), (IH s Hpre). reflexivity.
Qed.

End LikeFacts.

(** ** Formatting years and months *)

Section FormatFacts.

Lemma forall_chars_impl (p q : ascii -> bool) (s : string) :
  (forall c, p c = true -> q c = true) ->
  forall_chars p s = true -> forall_chars q s = true.
Proof.
  intros Hpq. induction s as [|c s IH]; simpl; [trivial|].
  intros H. apply andb_prop in H as [Hc Hs].
  now rewrite (Hpq c Hc), (IH Hs).
Qed.

Lemma string_of_uint_decimal (d : Decimal.uint) :
  forall_chars isdecimal_char (NilEmpty.string_of_uint d) = true.
Proof. induction d; simpl; trivial. Qed.

Lemma digits_decimal (n : N) : forall_chars isdecimal_char (digits n) = true.
Proof. apply string_of_uint_decimal. Qed.

Lemma zeros_decimal (k : nat) : forall_chars isdecimal_char (zeros k) = true.
Proof. induction k; simpl; trivial. Qed.

Lemma zfill_decimal (w : nat) (s : string) :
  forall_chars isdecimal_char s = true ->
  forall_chars isdecimal_char (zfill w s) = true.
Proof.
  intros H. unfold zfill. now rewrite forall_chars_append, zeros_decimal, H.
Qed.

Lemma value_digits (n : N) : value (digits n) = n.
Proof.
  unfold value, digits. rewrite NilEmpty.usu. apply Unsigned.of_to.
Qed.

Lemma value_zeros (k : nat) (s : string) :
  value (zeros k ++ s) = value s.
Proof.
  induction k as [|k IH]; [reflexivity|].
  unfold value in *. simpl.
  destruct (NilEmpty.uint_of_string (zeros k ++ s)) as [d|];
    destruct (NilEmpty.uint_of_string s) as [d'|]; simpl in *; trivial.
Qed.

Lemma value_zfill (w : nat) (n : N) : value (zfill w (digits n)) = n.
Proof. unfold zfill. now rewrite value_zeros, value_digits. Qed.

Lemma digits_nonempty (n : N) : digits n <> EmptyString.
Proof.
  intros H. assert (Hv := value_digits n). rewrite H in Hv.
  compute in Hv. subst n. discriminate H.
Qed.

Lemma zfill_head (w : nat) (n : N) :
  exists c rest,
    zfill w (digits n) = String c rest /\ isdecimal_char c = true.
Proof.
  assert (Hd := zfill_decimal w (digits n) (digits_decimal n)).
  destruct (zfill w (digits n)) as [|c rest] eqn:E.
  - exfalso. unfold zfill in E.
    destruct (zeros (w - String.length (digits n))); simpl in E;
      [now apply (digits_nonempty n) | discriminate].
  - simpl in Hd. apply andb_prop in Hd as [Hc _]. eauto.
Qed.

Lemma decimal_not_dash (c : ascii) :
  isdecimal_char c = true -> Ascii.eqb c "-" = false /\ Ascii.eqb "-" c = false.
Proof.
  destruct c as [[] [] [] [] [] [] [] []]; try discriminate; now split.
Qed.

(** Two runs of digits, each closed by a dash: if one text is a prefix of
    the other, the runs are the same. *)
Lemma digit_run_prefix (a b r r' : string) :
  forall_chars isdecimal_char a = true ->
  forall_chars isdecimal_char b = true ->
  prefix (a ++ String "-" r) (b ++ String "-" r') = true ->
  a = b /\ prefix r r' = true.
Proof.
  revert b. induction a as [|c a IH]; intros [|d b] Ha Hb H.
  - simpl append in H. rewrite prefix_cons in H. simpl in H. now split.
  - simpl in Hb. apply andb_prop in Hb as [Hd _].
    change (prefix (String "-" r) (String d (b ++ String "-" r')) = true) in H.
    rewrite prefix_cons in H.
    destruct (decimal_not_dash d Hd) as [_ E]. rewrite E in H. discriminate.
  - simpl in Ha. apply andb_prop in Ha as [Hc _].
    change (prefix (String c (a ++ String "-" r)) (String "-" r') = true) in H.
    rewrite prefix_cons in H.
    destruct (decimal_not_dash c Hc) as [E _]. rewrite E in H. discriminate.
  - simpl in Ha, Hb.
    apply andb_prop in Ha as [_ Ha]. apply andb_prop in Hb as [_ Hb].
    change (prefix (String c (a ++ String "-" r))
                   (String d (b ++ String "-" r')) = true) in H.
    rewrite prefix_cons in H. apply andb_prop in H as [Hcd H].
    apply Ascii.eqb_eq in Hcd. subst d.
    destruct (IH b Ha Hb H) as [-> Hr]. now split.
Qed.

(** A formatted number closed by a dash determines the number. *)
Lemma format_0d_prefix (w w' : nat) (n n' : Z) (r r' : string) :
  prefix (format_0d w n ++ String "-" r)
         (format_0d w' n' ++ String "-" r') = true ->
  n = n' /\ prefix r r' = true.
Proof.
  unfold format_0d.
  destruct (Z.ltb_spec n 0) as [Hn|Hn]; destruct (Z.ltb_spec n' 0) as [Hn'|Hn'];
    intros H.
  - change (prefix
      (String "-" (zfill (w - 1) (digits (Z.to_N (- n))) ++ String "-" r))
      (String "-" (zfill (w' - 1) (digits (Z.to_N (- n'))) ++ String "-" r'))
      = true) in H.
    rewrite prefix_cons in H. simpl in H.
    apply digit_run_prefix in H as [E Hr];
      try (apply zfill_decimal, digits_decimal).
    apply (f_equal value) in E. rewrite !value_zfill in E. split; [lia|easy].
  - exfalso.
    destruct (zfill_head w' (Z.to_N n')) as (c & rest & E & Hc).
    rewrite E in H.
    change (prefix
      (String "-" (zfill (w - 1) (digits (Z.to_N (- n))) ++ String "-" r))
      (String c (rest ++ String "-" r')) = true) in H.
    rewrite prefix_cons in H.
    destruct (decimal_not_dash c Hc) as [_ E']. rewrite E' in H. discriminate.
  - exfalso.
    destruct (zfill_head w (Z.to_N n)) as (c & rest & E & Hc).
    rewrite E in H.
    change (prefix
      (String c (rest ++ String "-" r))
      (String "-" (zfill (w' - 1) (digits (Z.to_N (- n'))) ++ String "-" r'))
      = true) in H.
    rewrite prefix_cons in H.
    destruct (decimal_not_dash c Hc) as [E' _]. rewrite E' in H. discriminate.
  - apply digit_run_prefix in H as [E Hr];
      try (apply zfill_decimal, digits_decimal).
    apply (f_equal value) in E. rewrite !value_zfill in E. split; [lia|easy].
Qed.

Lemma format_0d_plain (w : nat) (n : Z) :
  forall_chars plain (format_0d w n) = true.
Proof.
  assert (Hdp : forall c, isdecimal_char c = true -> plain c = true).
  { intros c Hc. unfold plain. now rewrite Hc. }
  unfold format_0d. destruct (n <? 0).
  - simpl. apply (forall_chars_impl _ _ _ Hdp), zfill_decimal, digits_decimal.
  - apply (forall_chars_impl _ _ _ Hdp), zfill_decimal, digits_decimal.
Qed.

Lemma ym_prefix_plain (year month : Z) :
  forall_chars plain (ym_prefix year month) = true.
Proof.
  unfold ym_prefix.
  rewrite !forall_chars_append, !format_0d_plain. reflexivity.
Qed.

(** The prefix of one month opens no date of another month. *)
Lemma ym_prefix_inj (y m y' m' : Z) (rest : string) :
  prefix (ym_prefix y m) (ym_prefix y' m' ++ rest) = true ->
  y = y' /\ m = m'.
Proof.
  unfold ym_prefix. rewrite !append_assoc.
  change ("-" ++ format_0d 2 m ++ "-")%string
    with (String "-" (format_0d 2 m ++ String "-" EmptyString)).
  change ("-" ++ format_0d 2 m' ++ "-" ++ rest)%string
    with (String "-" (format_0d 2 m' ++ String "-" rest)).
  intros H. apply format_0d_prefix in H as [Hy H].
  apply format_0d_prefix in H as [Hm _]. now split.
Qed.

(** The store's month test, read as the prefix test it stands for. *)
Lemma in_month_prefix (u y m : Z) (r : expense) :
  in_month u y m r = dated_in u y m r.
Proof.
  unfold in_month, dated_in.
  now rewrite like_prefix by apply ym_prefix_plain.
Qed.

End FormatFacts.

(* ================================================================== *)
(** * The message parser *)

Section ParserFacts.
Variable R : Str.runtime.

Lemma split_lstrip (s : Str.text) :
  Str.split_from R [] (Str.lstrip R s) = Str.split_from R [] s.
Proof.
  induction s as [|c s IH]; [reflexivity|].
  simpl. destruct (Str.isspace_char R c) eqn:E; [exact IH|].
  simpl. now rewrite E.
Qed.

Lemma split_rstrip (s cur : Str.text) :
  Str.split_from R cur (Str.rstrip R s) = Str.split_from R cur s.
Proof.
  revert cur. induction s as [|c s IH]; intros cur; [reflexivity|].
  simpl Str.rstrip. destruct (Str.rstrip R s) as [|a r] eqn:E.
  - destruct (Str.isspace_char R c) eqn:Hc; simpl; rewrite Hc.
    + rewrite <- (IH []). reflexivity.
    + now rewrite <- IH.
  - cbn [Str.split_from]. rewrite <- !IH.
    destruct (Str.isspace_char R c); reflexivity.
Qed.

(** Trimming drops no token. *)
Lemma split_strip (s : Str.text) :
  Str.split R (Str.strip R s) = Str.split R s.
Proof. unfold Str.split, Str.strip. now rewrite split_rstrip, split_lstrip. Qed.

(** *** [int] on a text of digits *)

Lemma ascii_digit_of_value (d : N) :
  (d <= 9)%N -> Str.ascii_digit (48 + d) = true.
Proof.
  intros H. unfold Str.ascii_digit.
  apply andb_true_intro. split; apply N.leb_le; lia.
Qed.

Lemma to_ascii_digit (c : N) :
  Str.isdigit_char R c = true ->
  match Str.to_ascii R c with
  | Some a => digit_space_mark a = true
  | None => True
  end.
Proof.
  unfold Str.isdigit_char, Str.to_ascii, Str.isspace_char, Str.decimal_value.
  intros H. destruct (N.ltb_spec c 127) as [H127|H127].
  - destruct (N.ltb_spec c 128); [|lia].
    unfold digit_space_mark. now rewrite H.
  - destruct (N.ltb_spec c 128) as [H128|H128].
    + assert (c = 127%N) by lia. subst c. discriminate H.
    + destruct (Str.ucd_space R c); [reflexivity|].
      destruct (Str.ucd_decimal R c) as [d|]; [|exact I].
      destruct (N.leb_spec d 9); [|exact I].
      unfold digit_space_mark. now rewrite ascii_digit_of_value.
Qed.

Lemma rewrite_digits (s : Str.text) :
  forallb (Str.isdigit_char R) s = true ->
  forallb digit_space_mark (Str.rewrite_ascii R s) = true.
Proof.
  induction s as [|c s IH]; [reflexivity|].
  simpl. intros H. apply andb_prop in H as [Hc Hs].
  pose proof (to_ascii_digit c Hc) as Ha.
  destruct (Str.to_ascii R c) as [a|]; [|reflexivity].
  simpl. now rewrite Ha, (IH Hs).
Qed.

Lemma transform_digits (s : Str.text) :
  forallb (Str.isdigit_char R) s = true ->
  forallb digit_space_mark (Str.transform R s) = true.
Proof.
  intros H. unfold Str.transform.
  destruct (forallb (fun c => c <? 128)%N s) eqn:E;
    [|now apply rewrite_digits].
  induction s as [|c s IH]; [reflexivity|].
  simpl in *. apply andb_prop in H as [Hc Hs]. apply andb_prop in E as [Ec Es].
  unfold Str.isdigit_char in Hc. rewrite Ec in Hc.
  unfold digit_space_mark at 1. rewrite Hc. simpl. now apply IH.
Qed.

Lemma drop_c_space_forallb (p : N -> bool) (s : list N) :
  forallb p s = true -> forallb p (Str.drop_c_space s) = true.
Proof.
  induction s as [|c s IH]; [trivial|].
  intros H. simpl. destruct (Str.c_space c); [|exact H].
  simpl in H. apply andb_prop in H as [_ H]. now apply IH.
Qed.

Lemma digit_space_mark_no_sign (a : N) :
  digit_space_mark a = true -> ((a =? 45) || (a =? 43))%N = false.
Proof.
  intros H. destruct (N.eqb_spec a 45) as [->|_]; [discriminate H|].
  destruct (N.eqb_spec a 43) as [->|_]; [discriminate H | reflexivity].
Qed.

Lemma unsigned_too_long (s : list N) (n : N) :
  Str.unsigned R s = Str.TooLong n -> Str.too_many R n = true.
Proof.
  unfold Str.unsigned. destruct s as [|c s]; [discriminate|].
  destruct (Str.ascii_digit c); [|discriminate].
  destruct (Str.scan false 0 0 (c :: s)) as [[[v k] rest]|]; [|discriminate].
  destruct (Str.too_many R k) eqn:E.
  - now intros [= <-].
  - destruct (Str.drop_c_space rest); discriminate.
Qed.

(** On a text of digits [int] reads no sign. *)
Lemma int_of_digits (s : Str.text) :
  Str.isdigit R s = true ->
  Str.int R s
  = match Str.unsigned R (Str.drop_c_space (Str.transform R s)) with
    | Str.Value v => Ok (Z.of_N v)
    | Str.Invalid => Raise (ValueErrorInt s)
    | Str.TooLong n => Raise (ValueErrorDigits (Str.max_str_digits R) n)
    end.
Proof.
  intros H. unfold Str.int.
  assert (Hd : forallb digit_space_mark
                 (Str.drop_c_space (Str.transform R s)) = true).
  { apply drop_c_space_forallb, transform_digits.
    unfold Str.isdigit in H. now destruct s. }
  destruct (Str.drop_c_space (Str.transform R s)) as [|c b]; [reflexivity|].
  simpl in Hd. apply andb_prop in Hd as [Hc _].
  pose proof (digit_space_mark_no_sign c Hc) as Hs.
  apply orb_false_elim in Hs as [H45 H43].
  cbv zeta. rewrite H45, H43. reflexivity.
Qed.

Lemma int_nonneg (s : Str.text) (n : Z) :
  Str.isdigit R s = true -> Str.int R s = Ok n -> 0 <= n.
Proof.
  intros H. rewrite (int_of_digits s H).
  destruct (Str.unsigned R _); [|discriminate|discriminate].
  intros [= <-]. apply N2Z.is_nonneg.
Qed.

(** [int] raises nothing but ValueError: for a literal it cannot read,
    or for one of too many digits. *)
Lemma int_raises (s : Str.text) (e : exn) :
  Str.int R s = Raise e ->
  e = ValueErrorInt s \/
  exists n, (640 < n)%N /\ e = ValueErrorDigits (Str.max_str_digits R) n.
Proof.
  unfold Str.int.
  destruct (Str.drop_c_space (Str.transform R s)) as [|c b];
    [intros [= <-]; now left|].
  cbv zeta.
  destruct (Str.unsigned R _) as [v| |n] eqn:E;
    [discriminate | intros [= <-]; now left | intros [= <-]; right].
  apply unsigned_too_long in E. exists n. split; [|reflexivity].
  unfold Str.too_many in E. apply andb_prop in E as [E _].
  apply andb_prop in E as [E _]. now apply N.ltb_lt.
Qed.

(** What a successful parse returns. *)
Lemma parse_expense_message_ok (text item : Str.text) (amount : Z) :
  parse_expense_message R text = Ok (item, amount) ->
  item <> [] /\
  item = Str.strip R (Str.join [32%N] (removelast (Str.split R text))) /\
  Str.isdigit R (last (Str.split R text) []) = true /\
  Str.int R (last (Str.split R text) []) = Ok amount /\
  0 <= amount.
Proof.
  unfold parse_expense_message. rewrite split_strip.
  destruct (is_empty (Str.strip R text)); [discriminate|].
  destruct (List.length (Str.split R text) <? 2)%nat; [discriminate|].
  destruct (Str.isdigit R (last (Str.split R text) [])) eqn:Hd;
    [simpl|discriminate].
  destruct (Str.int R (last (Str.split R text) [])) as [n|e] eqn:Hn;
    [|discriminate].
  destruct (n <? 0); [discriminate|].
  destruct (is_empty (Str.strip R (Str.join [32%N]
                                     (removelast (Str.split R text)))))
    eqn:Hi; [discriminate|].
  intros [= <- <-]. repeat split; auto.
  - intros E. rewrite E in Hi. discriminate.
  - now apply (int_nonneg _ _ Hd).
Qed.

(** What a failed parse raises. *)
Lemma parse_expense_message_raises (text : Str.text) (e : exn) :
  parse_expense_message R text = Raise e ->
  e = ValueError msg_empty \/ e = ValueError msg_format \/
  e = ValueError msg_not_integer \/ e = ValueError msg_no_item \/
  e = ValueErrorInt (last (Str.split R text) []) \/
  exists n, (640 < n)%N /\ e = ValueErrorDigits (Str.max_str_digits R) n.
Proof.
  unfold parse_expense_message. rewrite split_strip.
  destruct (is_empty (Str.strip R text)); [intros [= <-]; auto|].
  destruct (List.length (Str.split R text) <? 2)%nat; [intros [= <-]; auto|].
  destruct (Str.isdigit R (last (Str.split R text) [])) eqn:Hd;
    [simpl | intros [= <-]; auto].
  destruct (Str.int R (last (Str.split R text) [])) as [n|e'] eqn:Hn.
  - apply (int_nonneg _ _ Hd) in Hn.
    destruct (Z.ltb_spec n 0); [lia|].
    destruct (is_empty _); [intros [= <-]; auto 6 | discriminate].
  - intros [= <-]. apply int_raises in Hn as [->|Hn]; auto 6.
Qed.

Lemma parse_raises_ValueError (text : Str.text) (e : exn) :
  parse_expense_message R text = Raise e -> is_ValueError e = true.
Proof.
  intros H. apply parse_expense_message_raises in H.
  destruct H as [->|[->|[->|[->|[->|(n & _ & ->)]]]]]; reflexivity.
Qed.

End ParserFacts.

(** C10. Whatever the text and whatever the interpreter's character
    database and digit limit, [parse_expense_message] either raises
    ValueError or returns (item, amount) where the item, already trimmed, is
    not empty and the amount is what [int] reads from the last
    whitespace-separated token of the text, a token made of digits only; so
    the amount is never negative, and the error for a negative amount is
    never the one raised. *)
Theorem parse_expense_message_total (R : Str.runtime) (text : Str.text) :
  match parse_expense_message R text with
  | Ok (item, amount) =>
      item <> [] /\
      item = Str.strip R (Str.join [32%N] (removelast (Str.split R text))) /\
      Str.isdigit R (last (Str.split R text) []) = true /\
      Str.int R (last (Str.split R text) []) = Ok amount /\
      0 <= amount
  | Raise e => is_ValueError e = true /\ e <> ValueError msg_negative
  end.
Proof.
  destruct (parse_expense_message R text) as [[item amount]|e] eqn:E.
  - now apply parse_expense_message_ok.
  - split; [now apply (parse_raises_ValueError R text)|].
    apply parse_expense_message_raises in E.
    destruct E as [->|[->|[->|[->|[->|(n & _ & ->)]]]]]; discriminate.
Qed.

Lemma parse_expense_message_total_witness :
  let text := Str.of_string "  qora non   " ++ [1637%N; 1632%N; 160%N] in
  parse_expense_message Str.excerpt text = Ok (Str.of_string "qora non", 50) /\
  Str.int Str.excerpt (last (Str.split Str.excerpt text) []) = Ok 50 /\
  0 <= 50.
Proof.
  intros text.
  pose proof (parse_expense_message_total Str.excerpt text) as H.
  assert (E : parse_expense_message Str.excerpt text
              = Ok (Str.of_string "qora non", 50)) by reflexivity.
  rewrite E in H. destruct H as (_ & _ & _ & Hint & Hle).
  split; [exact E|]. split; [exact Hint | exact Hle].
Defined.

(** ** ORDER BY *)

Section OrderByFacts.

Lemma insert_sorted_perm {A} (leb : A -> A -> bool) (x : A) (l : list A) :
  Permutation (x :: l) (insert_sorted leb x l).
Proof.
  induction l as [|y l IH]; simpl; [reflexivity|].
  destruct (leb x y); [reflexivity|].
  rewrite perm_swap. now constructor.
Qed.

Lemma order_by_perm {A} (leb : A -> A -> bool) (l : list A) :
  Permutation l (order_by leb l).
Proof.
  induction l as [|x l IH]; simpl; [reflexivity|].
  rewrite <- insert_sorted_perm. now constructor.
Qed.

Lemma insert_sorted_sorted {A} (leb : A -> A -> bool) (x : A) (l : list A) :
  (forall a b, leb a b = false -> leb b a = true) ->
  Sorted (fun a b => leb a b = true) l ->
  Sorted (fun a b => leb a b = true) (insert_sorted leb x l).
Proof.
  intros Htot. induction l as [|y l IH]; intros Hs; simpl.
  - repeat constructor.
  - destruct (leb x y) eqn:E.
    + constructor; [assumption | now constructor].
    + inversion Hs as [|? ? Hl Hhd]; subst. constructor; [now apply IH|].
      destruct l as [|z l]; simpl.
      * constructor. now apply Htot.
      * destruct (leb x z); constructor; [now apply Htot|].
        now inversion Hhd.
Qed.

Lemma order_by_sorted {A} (leb : A -> A -> bool) (l : list A) :
  (forall a b, leb a b = false -> leb b a = true) ->
  Sorted (fun a b => leb a b = true) (order_by leb l).
Proof.
  intros Htot. induction l as [|x l IH]; simpl; [constructor|].
  now apply insert_sorted_sorted.
Qed.

(** Rows already in ascending id order come back unchanged. *)
Lemma order_by_id_asc (l : list expense) :
  StronglySorted Z.lt (map id l) -> order_by id_asc l = l.
Proof.
  induction l as [|a l IH]; intros Hs; [reflexivity|].
  simpl in *. inversion Hs as [|? ? Hl Hall]; subst.
  rewrite (IH Hl). destruct l as [|b l]; [reflexivity|].
  simpl. inversion Hall as [|? ? Hab _]; subst.
  unfold id_asc. destruct (Z.leb_spec (id a) (id b)); [reflexivity | lia].
Qed.

Lemma insert_sorted_id_desc (a : expense) (l : list expense) :
  Forall (fun b => id a < id b) l ->
  insert_sorted id_desc a l = l ++ [a].
Proof.
  induction l as [|b l IH]; intros H; [reflexivity|].
  inversion H as [|? ? Hb Hl]; subst. simpl. unfold id_desc at 1.
  destruct (Z.leb_spec (id b) (id a)); [lia|]. now rewrite IH.
Qed.

(** In descending order they come back reversed. *)
Lemma order_by_id_desc (l : list expense) :
  StronglySorted Z.lt (map id l) -> order_by id_desc l = rev l.
Proof.
  induction l as [|a l IH]; intros Hs; [reflexivity|].
  simpl in *. inversion Hs as [|? ? Hl Hall]; subst.
  rewrite (IH Hl). apply insert_sorted_id_desc.
  rewrite Forall_forall in *. intros b Hb. apply Hall.
  apply in_map. now apply in_rev.
Qed.

Lemma filter_sorted_ids (p : expense -> bool) (l : list expense) :
  StronglySorted Z.lt (map id l) ->
  StronglySorted Z.lt (map id (filter p l)).
Proof.
  induction l as [|a l IH]; intros Hs; [constructor|].
  simpl in *. inversion Hs as [|? ? Hl Hall]; subst.
  destruct (p a); [|now apply IH]. simpl. constructor; [now apply IH|].
  rewrite Forall_forall in *. intros x Hx. apply Hall.
  apply in_map_iff in Hx as (r & <- & Hr). apply in_map.
  apply filter_In in Hr. tauto.
Qed.

End OrderByFacts.

(* ================================================================== *)
(** * SUM in 64 bits *)

Section SumFacts.

Lemma running_sum_partial (xs : list Z) (acc : Z) :
  running_sum acc xs
  = if forallb in_int64 (partial_sums acc xs)
    then Some (acc + fold_right Z.add 0 xs) else None.
Proof.
  revert acc. induction xs as [|x xs IH]; intros acc; simpl.
  - now rewrite Z.add_0_r.
  - destruct (in_int64 (acc + x)); [|reflexivity]. rewrite IH. simpl.
    destruct (forallb in_int64 (partial_sums (acc + x) xs));
      [f_equal; lia | reflexivity].
Qed.

Lemma running_sum_app (xs ys : list Z) (acc : Z) :
  running_sum acc (xs ++ ys)
  = match running_sum acc xs with
    | Some t => running_sum t ys
    | None => None
    end.
Proof.
  revert acc. induction xs as [|x xs IH]; intros acc; simpl; [reflexivity|].
  destruct (in_int64 (acc + x)); [apply IH | reflexivity].
Qed.

(** [SUM(amount)] over the rows [rs]. *)
Lemma sum_amounts (rs : list expense) :
  sum (map amount rs)
  = if sums_fit rs
    then Ok (match rs with [] => None | _ => Some (total rs) end)
    else Raise integer_overflow.
Proof.
  unfold sum, sums_fit, total. rewrite running_sum_partial.
  destruct rs as [|r rs]; [reflexivity|].
  cbn [map]. now destruct (forallb in_int64 _).
Qed.

Lemma in_int64_spec (z : Z) :
  in_int64 z = true <-> - 2 ^ 63 <= z < 2 ^ 63.
Proof.
  unfold in_int64. rewrite andb_true_iff, Z.leb_le, Z.ltb_lt. tauto.
Qed.

(** Amounts that are not negative only add up: their running totals fit
    as soon as the last one does. *)
Lemma partial_sums_nonneg (xs : list Z) (acc : Z) :
  Forall (fun x => 0 <= x) xs -> 0 <= acc < 2 ^ 63 ->
  forallb in_int64 (partial_sums acc xs)
  = (acc + fold_right Z.add 0 xs <? 2 ^ 63).
Proof.
  intros Hxs. revert acc.
  induction Hxs as [|x xs Hx Hxs IH]; intros acc Hacc; simpl.
  - symmetry. apply Z.ltb_lt. lia.
  - assert (Hsum : 0 <= fold_right Z.add 0 xs).
    { clear IH. induction Hxs; simpl; lia. }
    destruct (Z.ltb_spec (acc + x) (2 ^ 63)) as [Hlt|Hge].
    + assert (E : in_int64 (acc + x) = true) by (apply in_int64_spec; lia).
      rewrite E, IH by lia. simpl. f_equal. lia.
    + assert (E : in_int64 (acc + x) = false).
      { apply not_true_iff_false. rewrite in_int64_spec. lia. }
      rewrite E. simpl. symmetry. apply Z.ltb_ge. lia.
Qed.

Lemma total_nonneg (rs : list expense) :
  Forall (fun r => 0 <= amount r) rs -> 0 <= total rs.
Proof. unfold total. induction 1; simpl; lia. Qed.

Lemma sums_fit_nonneg (rs : list expense) :
  Forall (fun r => 0 <= amount r) rs ->
  sums_fit rs = (total rs <? 2 ^ 63).
Proof.
  intros H. unfold sums_fit, total.
  rewrite partial_sums_nonneg; [reflexivity | | lia].
  apply Forall_map. exact H.
Qed.

Lemma checked_total_nonneg (rs : list expense) :
  Forall (fun r => 0 <= amount r) rs ->
  checked_total rs
  = if total rs <? 2 ^ 63 then Ok (total rs) else Raise integer_overflow.
Proof. intros H. unfold checked_total. now rewrite sums_fit_nonneg. Qed.

End SumFacts.

(* ================================================================== *)
(** * What each store function does on a well-kept file *)

Section StoreRuns.

Lemma resolve_full (names : list string) (rs : list expense) (sq : Z) :
  forallb (fun n => existsb (eqb_nocase n) full_columns) names = true ->
  resolve names (Some (mkTable full_columns rs sq))
  = (Ok (mkTable full_columns rs sq), Some (mkTable full_columns rs sq)).
Proof. intros H. unfold resolve, has_column. simpl columns. now rewrite H. Qed.

Lemma forget_category_id (rs : list expense) :
  Forall (fun r => category r = None) rs -> map forget_category rs = rs.
Proof.
  induction 1 as [|r rs Hr _ IH]; [reflexivity|].
  simpl. rewrite IH. f_equal. destruct r; simpl in *. now subst.
Qed.

Lemma ensure_schema_run (db : database) :
  store_inv db -> _ensure_schema db = (Ok tt, opened db).
Proof.
  destruct db as [[cols rs sq]|]; [|reflexivity].
  intros ([Hc | [Hc Hn]] & _); simpl in Hc; subst cols.
  - reflexivity.
  - unfold _ensure_schema, bind, opened. simpl.
    now rewrite (forget_category_id rs Hn).
Qed.

Lemma max_rowid_le (rs : list expense) (sq : Z) :
  0 <= sq -> Forall (fun r => id r <= sq) rs -> max_rowid rs <= sq.
Proof.
  intros H0. unfold max_rowid.
  induction 1 as [|r rs Hr _ IH]; simpl; lia.
Qed.

Lemma store_inv_opened (db : database) : store_inv db -> store_inv (opened db).
Proof.
  destruct db as [[cols rs sq]|]; simpl.
  - intros (_ & Hs & Hm & H0). repeat split; auto.
  - intros _. repeat split; auto; try constructor; lia.
Qed.

Lemma next_id (db : database) :
  store_inv db ->
  Z.max (seq_of db) (max_rowid (rows_of db)) + 1 = seq_of db + 1.
Proof.
  intros H. apply store_inv_opened in H. destruct H as (_ & _ & Hm & H0).
  simpl in *. pose proof (max_rowid_le _ _ H0 Hm). lia.
Qed.

(** The insert appends the row when the amount is in the 64-bit range,
    and otherwise raises with the file as [_ensure_schema] left it. *)
Lemma add_expense_run (db : database) (u : Z) (it : string) (amt : Z)
    (d : string) (c : option string) :
  store_inv db ->
  add_expense u it amt d c db
  = if in_int64 amt
    then (Ok tt,
          Some (mkTable full_columns
                  (rows_of db ++ [mkExpense (seq_of db + 1) u it amt d c])
                  (seq_of db + 1)))
    else (Raise too_large, opened db).
Proof.
  intros H. unfold add_expense, _add_expense_sync, insert_row, bind, opened.
  rewrite (ensure_schema_run db H). unfold opened.
  rewrite resolve_full by reflexivity. simpl rows. simpl seq. simpl columns.
  destruct (in_int64 amt); [|reflexivity].
  simpl. now rewrite (next_id db H).
Qed.

Lemma get_all_expenses_run (db : database) (u : Z) :
  store_inv db ->
  get_all_expenses u db = (Ok (map triple (ledger u db)), opened db).
Proof.
  intros H.
  unfold get_all_expenses, _get_all_expenses_sync, select_where, bind, ret.
  rewrite (ensure_schema_run db H). unfold opened.
  rewrite resolve_full by reflexivity. simpl rows.
  rewrite order_by_id_asc; [reflexivity|].
  apply filter_sorted_ids. apply store_inv_opened in H. apply H.
Qed.

Lemma get_month_total_run (db : database) (u y m : Z) :
  store_inv db ->
  get_month_total u y m db
  = (checked_total (filter (in_month u y m) (rows_of db)), opened db).
Proof.
  intros H.
  unfold get_month_total, _get_month_total_sync, select_where, bind, ret, lift.
  rewrite (ensure_schema_run db H). unfold opened.
  rewrite resolve_full by reflexivity. simpl rows.
  rewrite sum_amounts. unfold checked_total.
  destruct (sums_fit (filter (in_month u y m) (rows_of db)));
    [|reflexivity].
  now destruct (filter (in_month u y m) (rows_of db)).
Qed.

Lemma get_last_expense_run (db : database) (u : Z) :
  store_inv db ->
  get_last_expense u db
  = (Ok (option_map quintuple (hd_error (rev (ledger u db)))), opened db).
Proof.
  intros H.
  unfold get_last_expense, _get_last_expense_sync, select_where, bind, ret.
  rewrite (ensure_schema_run db H). unfold opened.
  rewrite resolve_full by reflexivity. cbn [rows].
  rewrite order_by_id_desc.
  - unfold ledger.
    destruct (rev (filter (fun r => user_id r =? u) (rows_of db))); reflexivity.
  - apply filter_sorted_ids. apply store_inv_opened in H. apply H.
Qed.

Lemma delete_where_run (db : database) (names : list string)
    (cond : expense -> bool) :
  store_inv db ->
  forallb (fun n => existsb (eqb_nocase n) full_columns) names = true ->
  (_ensure_schema ;; delete_where names cond) db
  = (Ok (Z.of_nat (List.length (filter cond (rows_of db)))),
     Some (mkTable full_columns
             (filter (fun r => negb (cond r)) (rows_of db)) (seq_of db))).
Proof.
  intros H Hn. unfold delete_where, bind.
  rewrite (ensure_schema_run db H). unfold opened.
  now rewrite resolve_full by exact Hn.
Qed.

Lemma get_month_category_totals_run (db : database) (u y m : Z) :
  store_inv db ->
  get_month_category_totals u y m db
  = (match group_sum (map (fun r => (cat r, amount r))
                          (filter (in_month u y m) (rows_of db))) with
     | Ok groups => Ok (sorter total_desc groups)
     | Raise e => Raise e
     end,
     opened db).
Proof.
  intros H.
  unfold get_month_category_totals, _get_month_category_totals_sync,
    select_where, bind, ret, lift.
  rewrite (ensure_schema_run db H). unfold opened.
  rewrite resolve_full by reflexivity. simpl rows.
  now destruct (group_sum _).
Qed.

Lemma get_expenses_by_date_run (db : database) (u : Z) (d : string) :
  store_inv db ->
  state_after (get_expenses_by_date u d) db = opened db.
Proof.
  intros H.
  unfold state_after, get_expenses_by_date, _get_expenses_by_date_sync,
    select_where, bind, ret.
  rewrite (ensure_schema_run db H). unfold opened.
  now rewrite resolve_full by reflexivity.
Qed.

(** *** The invariant is kept *)

Lemma store_inv_filter (p : expense -> bool) (rs : list expense) (sq : Z) :
  store_inv (Some (mkTable full_columns rs sq)) ->
  store_inv (Some (mkTable full_columns (filter p rs) sq)).
Proof.
  simpl. intros (_ & Hs & Hm & H0). repeat split; auto.
  - now apply filter_sorted_ids.
  - rewrite Forall_forall in *. intros r Hr. apply Hm.
    apply filter_In in Hr. tauto.
Qed.

Lemma store_inv_add (db : database) (u : Z) (it : string) (amt : Z)
    (d : string) (c : option string) :
  store_inv db ->
  store_inv (state_after (add_expense u it amt d c) db).
Proof.
  intros H. unfold state_after. rewrite (add_expense_run _ _ _ _ _ _ H).
  destruct (in_int64 amt); [|now apply store_inv_opened].
  apply store_inv_opened in H. destruct H as (_ & Hs & Hm & H0).
  simpl in *. repeat split; auto.
  - rewrite map_app. simpl.
    clear H0. induction (rows_of db) as [|r rs IH]; simpl.
    + repeat constructor.
    + inversion Hs as [|? ? Hl Hall]; subst.
      inversion Hm as [|? ? Hr Hrs]; subst.
      constructor; [now apply IH|].
      rewrite Forall_app. split; [assumption|]. constructor; [lia|constructor].
  - rewrite Forall_app. split.
    + eapply Forall_impl; [|exact Hm]. simpl. intros; lia.
    + constructor; [simpl; lia | constructor].
  - lia.
Qed.

Lemma store_inv_delete (db : database) (u eid : Z) :
  store_inv db -> store_inv (state_after (delete_expense u eid) db).
Proof.
  intros H. unfold state_after, delete_expense, _delete_expense_sync.
  rewrite delete_where_run by (trivial || reflexivity).
  apply store_inv_filter, (store_inv_opened db H).
Qed.

Lemma store_inv_delete_all (db : database) (u : Z) :
  store_inv db -> store_inv (state_after (delete_all_expenses u) db).
Proof.
  intros H. unfold state_after, delete_all_expenses, _delete_all_expenses_sync.
  rewrite delete_where_run by (trivial || reflexivity).
  apply store_inv_filter, (store_inv_opened db H).
Qed.

(** Every state the store functions produce from a new file is well
    kept. *)
Lemma store_reachable_inv (db : database) : store_reachable db -> store_inv db.
Proof.
  induction 1 as [|db _ IH|db u it amt d c _ IH|db u _ IH|db u d _ IH
                  |db u y m _ IH|db u _ IH|db u eid _ IH|db u y m _ IH
                  |db u _ IH].
  - exact I.
  - unfold state_after, init_db, _init_db_sync.
    rewrite (ensure_schema_run db IH). now apply store_inv_opened.
  - now apply store_inv_add.
  - unfold state_after. rewrite (get_all_expenses_run _ _ IH).
    now apply store_inv_opened.
  - rewrite (get_expenses_by_date_run _ _ _ IH). now apply store_inv_opened.
  - unfold state_after. rewrite (get_month_total_run _ _ _ _ IH).
    now apply store_inv_opened.
  - unfold state_after. rewrite (get_last_expense_run _ _ IH).
    now apply store_inv_opened.
  - now apply store_inv_delete.
  - unfold state_after. rewrite (get_month_category_totals_run _ _ _ _ IH).
    now apply store_inv_opened.
  - now apply store_inv_delete_all.
Qed.

End StoreRuns.

(* ================================================================== *)
(** * The ledger operations *)

Ltac store_inv_by_computation :=
  cbv; repeat split; repeat constructor; try discriminate.

Section LedgerFacts.

Lemma scenario_inv : store_inv scenario.
Proof. store_inv_by_computation. Qed.

Lemma rows_after_add (db : database) (u : Z) (it : string) (amt : Z)
    (d : string) (c : option string) :
  store_inv db -> in_int64 amt = true ->
  rows_of (state_after (add_expense u it amt d c) db)
  = rows_of db ++ [mkExpense (seq_of db + 1) u it amt d c].
Proof.
  intros H Hamt. unfold state_after.
  now rewrite (add_expense_run _ _ _ _ _ _ H), Hamt.
Qed.

Lemma seq_after_add (db : database) (u : Z) (it : string) (amt : Z)
    (d : string) (c : option string) :
  store_inv db -> in_int64 amt = true ->
  seq_of (state_after (add_expense u it amt d c) db) = seq_of db + 1.
Proof.
  intros H Hamt. unfold state_after.
  now rewrite (add_expense_run _ _ _ _ _ _ H), Hamt.
Qed.

(** An insert that is refused leaves every row and the counter. *)
Lemma state_after_refused_add (db : database) (u : Z) (it : string) (amt : Z)
    (d : string) (c : option string) :
  store_inv db -> in_int64 amt = false ->
  state_after (add_expense u it amt d c) db = opened db.
Proof.
  intros H Hamt. unfold state_after.
  now rewrite (add_expense_run _ _ _ _ _ _ H), Hamt.
Qed.

Lemma ledger_after_add (db : database) (u : Z) (it : string) (amt : Z)
    (d : string) (c : option string) :
  store_inv db -> in_int64 amt = true ->
  ledger u (state_after (add_expense u it amt d c) db)
  = ledger u db ++ [mkExpense (seq_of db + 1) u it amt d c].
Proof.
  intros H Hamt. unfold ledger. rewrite (rows_after_add _ _ _ _ _ _ H Hamt).
  rewrite filter_app. simpl. now rewrite Z.eqb_refl.
Qed.

Lemma ledger_sorted (db : database) (u : Z) :
  store_inv db -> StronglySorted Z.lt (map id (ledger u db)).
Proof.
  intros H. apply filter_sorted_ids.
  apply store_inv_opened in H. apply H.
Qed.

Lemma in_ledger (db : database) (u : Z) (r : expense) :
  In r (ledger u db) <-> In r (rows_of db) /\ user_id r = u.
Proof.
  unfold ledger. rewrite filter_In. now rewrite Z.eqb_eq.
Qed.

Lemma insert_appends (db : database) (u : Z) (it : string) (amt : Z)
    (d : string) (c : option string) :
  store_inv db -> in_int64 amt = true ->
  result (add_expense u it amt d c) db = Ok tt /\
  result (get_all_expenses u) db = Ok (map triple (ledger u db)) /\
  result (get_all_expenses u) (state_after (add_expense u it amt d c) db)
  = Ok (map triple (ledger u db) ++ [(it, amt, d)]).
Proof.
  intros H Hamt. pose proof (store_inv_add db u it amt d c H) as H'.
  unfold result at 1 2 3.
  rewrite (add_expense_run _ _ _ _ _ _ H), Hamt.
  rewrite (get_all_expenses_run _ _ H), (get_all_expenses_run _ _ H').
  rewrite (ledger_after_add _ _ _ _ _ _ H Hamt), map_app. repeat split.
Qed.

Lemma insert_refused (db : database) (u : Z) (it : string) (amt : Z)
    (d : string) (c : option string) :
  store_inv db -> in_int64 amt = false ->
  result (add_expense u it amt d c) db = Raise too_large /\
  result (get_all_expenses u) (state_after (add_expense u it amt d c) db)
  = result (get_all_expenses u) db.
Proof.
  intros H Hamt. rewrite (state_after_refused_add _ _ _ _ _ _ H Hamt).
  unfold result. rewrite (add_expense_run _ _ _ _ _ _ H), Hamt.
  split; [reflexivity|].
  now rewrite (get_all_expenses_run _ _ H),
    (get_all_expenses_run _ _ (store_inv_opened db H)).
Qed.

End LedgerFacts.

(** C1, as the code has it: on a well-kept file and for a non-empty item,
    an amount that is not negative and any date string, [add_expense]
    returns normally when the amount is below 2^63, and
    [get_all_expenses] for that user then yields what it yielded before
    followed by exactly (item, amount, date); for an amount of 2^63 or more
    the driver raises OverflowError and the listing stays as it was.
    [get_all_expenses] lists the user's records, and only those, in
    ascending id order, and yields the empty list, not an error, when the
    user owns no record. *)
Theorem insert_then_list_all (db : database) (u : Z) (it : string) (amt : Z)
    (d : string) (c : option string) :
  store_inv db -> it <> EmptyString -> 0 <= amt ->
  let db' := state_after (add_expense u it amt d c) db in
  (amt < 2 ^ 63 ->
   result (add_expense u it amt d c) db = Ok tt /\
   exists before,
     result (get_all_expenses u) db = Ok before /\
     result (get_all_expenses u) db' = Ok (before ++ [(it, amt, d)])) /\
  (2 ^ 63 <= amt ->
   result (add_expense u it amt d c) db
   = Raise (OverflowError
              "Python int too large to convert to SQLite INTEGER") /\
   result (get_all_expenses u) db' = result (get_all_expenses u) db) /\
  (exists rs,
      result (get_all_expenses u) db' = Ok (map triple rs) /\
      StronglySorted Z.lt (map id rs) /\
      (forall r, In r rs <-> In r (rows_of db') /\ user_id r = u)) /\
  ((forall r, In r (rows_of db) -> user_id r <> u) ->
   result (get_all_expenses u) db = Ok []).
Proof.
  intros H _ Hamt db'.
  pose proof (store_inv_add db u it amt d c H) as H'. fold db' in H'.
  split; [|split; [|split]].
  - intros Hlt.
    assert (Hfit : in_int64 amt = true) by (apply in_int64_spec; lia).
    destruct (insert_appends db u it amt d c H Hfit)
      as (Hadd & Hbefore & Hafter).
    split; [exact Hadd | eauto].
  - intros Hge. apply insert_refused; [exact H|].
    apply not_true_iff_false. rewrite in_int64_spec. lia.
  - exists (ledger u db'). unfold result.
    rewrite (get_all_expenses_run _ _ H'). split; [reflexivity|].
    split; [now apply ledger_sorted | intros r; apply in_ledger].
  - intros Hnone. unfold result. rewrite (get_all_expenses_run _ _ H).
    cbn [fst]. f_equal.
    destruct (ledger u db) as [|r rs] eqn:E; [reflexivity|].
    exfalso. apply (Hnone r); apply (in_ledger db u r); rewrite E; now left.
Qed.

Lemma insert_then_list_all_witness :
  store_inv scenario /\ "milk" <> EmptyString /\ 0 <= 7000 /\ 7000 < 2 ^ 63 /\
  result (get_all_expenses 1)
    (state_after (add_expense 1 "milk" 7000 "2024-04-02" None) scenario)
  = Ok [("bread", 5000, "2024-03-01"); ("coffee", 12000, "2024-03-15");
        ("rent", 500000, "2024-04-01"); ("milk", 7000, "2024-04-02")].
Proof.
  assert (Hinv : store_inv scenario) by store_inv_by_computation.
  assert (Hit : "milk" <> EmptyString) by discriminate.
  assert (Hamt : 0 <= 7000) by lia.
  assert (Hlt : 7000 < 2 ^ 63) by lia.
  repeat (split; [assumption|]).
  destruct (insert_then_list_all scenario 1 "milk" 7000 "2024-04-02" None
              Hinv Hit Hamt) as (Hsmall & _).
  destruct (Hsmall Hlt) as (_ & before & Hb & Ha).
  rewrite Ha. vm_compute in Hb. injection Hb as <-. reflexivity.
Defined.

(** C1, counterexample: an insert for user 1 with a non-empty item and
    the amount 2^63 raises OverflowError, and the listing of user 1 is as
    it was before. *)
Lemma insert_too_large_adds_nothing :
  let big := add_expense 1 "uy" (2 ^ 63) "2024-04-02" None in
  store_inv scenario /\ "uy" <> EmptyString /\ 0 <= 2 ^ 63 /\
  result big scenario
  = Raise (OverflowError "Python int too large to convert to SQLite INTEGER") /\
  result (get_all_expenses 1) (state_after big scenario)
  = Ok [("bread", 5000, "2024-03-01"); ("coffee", 12000, "2024-03-15");
        ("rent", 500000, "2024-04-01")].
Proof.
  split; [store_inv_by_computation|]. split; [discriminate|].
  split; [lia|]. split; reflexivity.
Qed.

(** C2, as the code has it: the store checks neither the item nor the
    amount.  With an empty item or a negative amount [add_expense] still
    returns normally and the user's listing grows by that record, as long
    as the amount is in the 64-bit range of an INTEGER; outside that range
    the driver raises OverflowError and the listing stays as it is.  An
    empty item or a negative amount is rejected only upstream:
    [parse_expense_message] never returns one. *)
Theorem insert_unchecked (db : database) (u : Z) (it : string) (amt : Z)
    (d : string) (c : option string) :
  store_inv db -> it = EmptyString \/ amt < 0 ->
  (- 2 ^ 63 <= amt < 2 ^ 63 ->
   result (add_expense u it amt d c) db = Ok tt /\
   exists before,
     result (get_all_expenses u) db = Ok before /\
     result (get_all_expenses u) (state_after (add_expense u it amt d c) db)
     = Ok (before ++ [(it, amt, d)])) /\
  (amt < - 2 ^ 63 \/ 2 ^ 63 <= amt ->
   result (add_expense u it amt d c) db = Raise too_large /\
   result (get_all_expenses u) (state_after (add_expense u it amt d c) db)
   = result (get_all_expenses u) db) /\
  (forall R text item amount,
      parse_expense_message R text = Ok (item, amount) ->
      item <> [] /\ 0 <= amount).
Proof.
  intros H _. split; [|split].
  - intros Hamt. apply in_int64_spec in Hamt.
    destruct (insert_appends db u it amt d c H Hamt)
      as (Hadd & Hbefore & Hafter).
    split; [exact Hadd | eauto].
  - intros Hamt. apply insert_refused; [exact H|].
    apply not_true_iff_false. rewrite in_int64_spec. lia.
  - intros R text item amount E.
    apply parse_expense_message_ok in E as (Hit & _ & _ & _ & Hamt).
    now split.
Qed.

Lemma insert_unchecked_witness :
  store_inv scenario /\ (EmptyString = EmptyString \/ -1 < 0) /\
  - 2 ^ 63 <= -1 < 2 ^ 63 /\
  result (add_expense 1 EmptyString (-1) "2024-04-02" None) scenario = Ok tt.
Proof.
  assert (Hinv : store_inv scenario) by store_inv_by_computation.
  assert (Hbad : EmptyString = EmptyString \/ -1 < 0) by (left; reflexivity).
  assert (Hamt : - 2 ^ 63 <= -1 < 2 ^ 63) by lia.
  repeat (split; [assumption|]).
  exact (proj1 (proj1 (insert_unchecked scenario 1 EmptyString (-1)
                         "2024-04-02" None Hinv Hbad) Hamt)).
Defined.

(** C2, counterexample: on a new file, an insert with amount -1 and an
    insert with an empty item both return normally, and each adds a row to
    the listing of user 1. *)
Lemma insert_invalid_adds_row :
  let neg := add_expense 1 "non" (-1) "2024-03-01" None in
  let blank := add_expense 1 EmptyString 5000 "2024-03-01" None in
  result (get_all_expenses 1) None = Ok [] /\
  result neg None = Ok tt /\
  result (get_all_expenses 1) (state_after neg None)
  = Ok [("non", -1, "2024-03-01")] /\
  result blank None = Ok tt /\
  result (get_all_expenses 1) (state_after blank None)
  = Ok [(EmptyString, 5000, "2024-03-01")].
Proof. vm_compute. repeat split. Qed.

Section FilterFacts.

Lemma filter_nothing {A} (p : A -> bool) (l : list A) :
  (forall x, In x l -> p x = false) -> filter p l = [].
Proof.
  induction l as [|a l IH]; intros H; [reflexivity|].
  simpl. rewrite (H a) by now left. apply IH. intros x Hx. apply H. now right.
Qed.

Lemma filter_everything {A} (p : A -> bool) (l : list A) :
  (forall x, In x l -> p x = true) -> filter p l = l.
Proof.
  induction l as [|a l IH]; intros H; [reflexivity|].
  simpl. rewrite (H a) by now left. f_equal. apply IH.
  intros x Hx. apply H. now right.
Qed.

Lemma filter_filter {A} (p q : A -> bool) (l : list A) :
  filter p (filter q l) = filter (fun x => q x && p x) l.
Proof.
  induction l as [|a l IH]; [reflexivity|].
  simpl. destruct (q a); simpl; [destruct (p a)|]; now rewrite IH.
Qed.

(** Ids identify rows. *)
Lemma ids_unique (l : list expense) (x y : expense) :
  StronglySorted Z.lt (map id l) ->
  In x l -> In y l -> id x = id y -> x = y.
Proof.
  induction l as [|a l IH]; intros Hs Hx Hy E; [contradiction|].
  simpl in Hs. inversion Hs as [|? ? Hl Hall]; subst.
  rewrite Forall_forall in Hall.
  destruct Hx as [->|Hx], Hy as [->|Hy]; auto.
  - specialize (Hall (id y) (in_map id _ _ Hy)). lia.
  - specialize (Hall (id x) (in_map id _ _ Hx)). lia.
Qed.


(** The last row of a list in ascending id order has the greatest id. *)
Lemma last_is_greatest (l : list expense) (r : expense) :
  StronglySorted Z.lt (map id l) ->
  hd_error (rev l) = Some r ->
  In r l /\ forall x, In x l -> id x <= id r.
Proof.
  induction l as [|a l IH]; intros Hs Hr; [discriminate|].
  simpl in Hs. inversion Hs as [|? ? Hl Hall]; subst.
  rewrite Forall_forall in Hall. simpl in Hr.
  destruct (rev l) as [|h t] eqn:E.
  - apply (f_equal (@rev _)) in E. rewrite rev_involutive in E. subst l.
    simpl in Hr. injection Hr as <-. split; [now left|].
    intros x [->|[]]. lia.
  - simpl in Hr. destruct (IH Hl Hr) as [Hin Hmax]. split; [now right|].
    intros x [->|Hx]; [|now apply Hmax].
    specialize (Hall (id r) (in_map id _ _ Hin)). lia.
Qed.

End FilterFacts.

(** C3, as the code has it: SQLite adds the amounts in 64 bits.
    [get_month_total] returns the sum of [amount] over exactly the user's
    records whose date starts with the zero-padded prefix [YYYY-MM-] when
    every running total of those amounts, taken in the order of the rows,
    is in the 64-bit range, and raises "integer overflow" when one is not;
    for amounts that are not negative this means: when the sum is below
    2^63.  It returns 0, not an error, when no record matches; and a
    record inserted with a date of any other month, the adjacent ones
    included, leaves what it returns unchanged. *)
Theorem month_total_is_prefix_sum (db : database) (u year month : Z) :
  store_inv db ->
  let monthly := filter (dated_in u year month) (rows_of db) in
  result (get_month_total u year month) db
  = (if sums_fit monthly then Ok (total monthly)
     else Raise (OperationalError "integer overflow")) /\
  (Forall (fun r => 0 <= amount r) monthly ->
   sums_fit monthly = (total monthly <? 2 ^ 63)) /\
  (monthly = [] -> result (get_month_total u year month) db = Ok 0) /\
  (forall (v : Z) (it : string) (amt : Z) (c : option string)
          (year' month' : Z) (day : string),
      (year', month') <> (year, month) ->
      result (get_month_total u year month)
        (state_after
           (add_expense v it amt (ym_prefix year' month' ++ day) c) db)
      = result (get_month_total u year month) db).
Proof.
  intros H monthly.
  assert (Hrun : forall db0, store_inv db0 ->
            result (get_month_total u year month) db0
            = checked_total (filter (dated_in u year month) (rows_of db0))).
  { intros db0 H0. unfold result. rewrite (get_month_total_run _ _ _ _ H0).
    simpl. f_equal. apply filter_ext, in_month_prefix. }
  split; [exact (Hrun db H)|]. split; [apply sums_fit_nonneg|]. split.
  - intros E. rewrite (Hrun db H). fold monthly. rewrite E. reflexivity.
  - intros v it amt c year' month' day Hne.
    rewrite (Hrun db H), (Hrun _ (store_inv_add db v it amt _ c H)).
    f_equal. unfold state_after. rewrite (add_expense_run _ _ _ _ _ _ H).
    destruct (in_int64 amt); [|reflexivity].
    cbn [snd rows_of rows]. rewrite filter_app. simpl.
    unfold dated_in at 2. simpl.
    destruct (prefix (ym_prefix year month) (ym_prefix year' month' ++ day))
      eqn:E.
    + apply ym_prefix_inj in E as [-> ->]. now contradiction Hne.
    + rewrite andb_false_r, app_nil_r. reflexivity.
Qed.

Lemma month_total_is_prefix_sum_witness :
  store_inv scenario /\
  result (get_month_total 1 2024 3) scenario = Ok 17000 /\
  result (get_month_total 1 2024 3)
    (state_after (add_expense 1 "rent" 500000 "2024-04-01" None) scenario)
  = Ok 17000.
Proof.
  assert (Hinv : store_inv scenario) by store_inv_by_computation.
  split; [assumption|].
  destruct (month_total_is_prefix_sum scenario 1 2024 3 Hinv)
    as (Hsum & _ & _ & Hadj).
  assert (Hne : (2024, 4) <> (2024, 3)) by discriminate.
  split.
  - rewrite Hsum. reflexivity.
  - change "2024-04-01" with (ym_prefix 2024 4 ++ "01")%string.
    rewrite (Hadj 1 "rent" 500000 None 2024 4 "01" Hne), Hsum. reflexivity.
Defined.

(** C3, counterexample: after two inserts of 2^63 - 1 for user 1, both
    dated in March 2024, [get_month_total] raises "integer overflow"
    instead of returning the sum of the two amounts. *)
Lemma month_total_overflows :
  let db :=
    state_after (add_expense 1 "uy" (2 ^ 63 - 1) "2024-03-02" None)
      (state_after (add_expense 1 "uy" (2 ^ 63 - 1) "2024-03-01" None) None) in
  store_reachable db /\
  map triple (filter (dated_in 1 2024 3) (rows_of db))
  = [("uy", 2 ^ 63 - 1, "2024-03-01"); ("uy", 2 ^ 63 - 1, "2024-03-02")] /\
  result (get_month_total 1 2024 3) db
  = Raise (OperationalError "integer overflow") /\
  result (get_month_total 1 2024 3) db
  <> Ok (total (filter (dated_in 1 2024 3) (rows_of db))).
Proof.
  split; [apply sr_add, sr_add, sr_new|].
  split; [reflexivity|]. split; [reflexivity | discriminate].
Qed.



Section DeleteAllFacts.

Lemma delete_all_run (db : database) (u : Z) :
  store_inv db ->
  delete_all_expenses u db
  = (Ok (Z.of_nat (List.length (ledger u db))),
     Some (mkTable full_columns
             (filter (fun r => negb (user_id r =? u)) (rows_of db))
             (seq_of db))).
Proof.
  intros H. unfold delete_all_expenses, _delete_all_expenses_sync.
  now rewrite delete_where_run by (trivial || reflexivity).
Qed.

Lemma ledger_after_delete_all (db : database) (u v : Z) :
  store_inv db ->
  ledger v (state_after (delete_all_expenses u) db)
  = if v =? u then [] else ledger v db.
Proof.
  intros H. unfold state_after. rewrite (delete_all_run _ _ H).
  unfold ledger. simpl. rewrite filter_filter.
  destruct (Z.eqb_spec v u) as [->|Hne].
  - apply filter_nothing. intros x _. now destruct (user_id x =? u).
  - apply filter_ext. intros x.
    destruct (Z.eqb_spec (user_id x) u), (Z.eqb_spec (user_id x) v);
      simpl; congruence.
Qed.

End DeleteAllFacts.

(** C6. For a user whose listing has N records, [delete_all_expenses]
    returns N; afterwards the user's listing is empty and a second call
    returns 0; every other user's listing is as before. *)
Theorem delete_all_counts (db : database) (u : Z)
    (before : list (string * Z * string)) :
  store_inv db ->
  result (get_all_expenses u) db = Ok before ->
  let db' := state_after (delete_all_expenses u) db in
  result (delete_all_expenses u) db = Ok (Z.of_nat (List.length before)) /\
  result (get_all_expenses u) db' = Ok [] /\
  result (delete_all_expenses u) db' = Ok 0 /\
  (forall v, v <> u ->
     ledger v db' = ledger v db /\
     result (get_all_expenses v) db' = result (get_all_expenses v) db).
Proof.
  intros H Hb db'.
  pose proof (store_inv_delete_all db u H) as H'. fold db' in H'.
  unfold result in *. rewrite (get_all_expenses_run _ _ H) in Hb.
  simpl in Hb. injection Hb as <-.
  rewrite (delete_all_run _ _ H), (delete_all_run _ _ H').
  rewrite length_map. split; [reflexivity|].
  assert (Hl : forall v, ledger v db' = if v =? u then [] else ledger v db)
    by (intros v; apply ledger_after_delete_all, H).
  split; [|split].
  - rewrite (get_all_expenses_run _ _ H'), (Hl u), Z.eqb_refl. reflexivity.
  - simpl. now rewrite (Hl u), Z.eqb_refl.
  - intros v Hne. specialize (Hl v).
    destruct (Z.eqb_spec v u); [contradiction|]. split; [exact Hl|].
    rewrite (get_all_expenses_run _ _ H'), (get_all_expenses_run _ _ H), Hl.
    reflexivity.
Qed.

Lemma delete_all_counts_witness :
  let before := [("bread", 5000, "2024-03-01"); ("coffee", 12000, "2024-03-15");
                 ("rent", 500000, "2024-04-01")] in
  store_inv scenario /\
  result (get_all_expenses 1) scenario = Ok before /\
  result (delete_all_expenses 1) scenario = Ok 3 /\
  result (delete_all_expenses 1)
    (state_after (delete_all_expenses 1) scenario) = Ok 0.
Proof.
  intros before.
  assert (Hinv : store_inv scenario) by store_inv_by_computation.
  assert (Hb : result (get_all_expenses 1) scenario = Ok before)
    by reflexivity.
  repeat (split; [assumption|]).
  destruct (delete_all_counts scenario 1 before Hinv Hb) as (Hn & _ & H0 & _).
  split; [exact Hn | exact H0].
Defined.

(** C7. [get_last_expense] returns the user's record with the greatest
    id, and None, not an error, when the user owns no record.  After
    inserting A and then B (two calls of [add_expense] that returned
    normally) it returns B; after then deleting B by its id it returns
    A. *)
Theorem last_record_is_newest (db : database) (u : Z) :
  store_inv db ->
  match result (get_last_expense u) db with
  | Ok None => forall x, In x (rows_of db) -> user_id x <> u
  | Ok (Some q) =>
      exists r, q = quintuple r /\ In r (rows_of db) /\ user_id r = u /\
        forall x, In x (rows_of db) -> user_id x = u -> id x <= id r
  | Raise _ => False
  end /\
  ((forall x, In x (rows_of db) -> user_id x <> u) ->
   result (get_last_expense u) db = Ok None) /\
  (forall itA amtA dA cA itB amtB dB cB,
     let dbA := state_after (add_expense u itA amtA dA cA) db in
     let dbB := state_after (add_expense u itB amtB dB cB) dbA in
     result (add_expense u itA amtA dA cA) db = Ok tt ->
     result (add_expense u itB amtB dB cB) dbA = Ok tt ->
     exists idA idB,
       result (get_last_expense u) dbB = Ok (Some (idB, itB, amtB, dB, cB)) /\
       result (delete_expense u idB) dbB = Ok 1 /\
       result (get_last_expense u) (state_after (delete_expense u idB) dbB)
       = Ok (Some (idA, itA, amtA, dA, cA))).
Proof.
  intros H.
  assert (Hrun : forall db0, store_inv db0 ->
            result (get_last_expense u) db0
            = Ok (option_map quintuple (hd_error (rev (ledger u db0))))).
  { intros db0 H0. unfold result. now rewrite (get_last_expense_run _ _ H0). }
  split; [|split].
  - rewrite (Hrun db H).
    destruct (hd_error (rev (ledger u db))) as [r|] eqn:E; simpl.
    + destruct (last_is_greatest _ _ (ledger_sorted db u H) E) as [Hin Hmax].
      apply in_ledger in Hin as [Hin Hu].
      exists r. repeat split; auto.
      intros x Hx Hxu. apply Hmax. now apply in_ledger.
    + intros x Hx Hxu.
      assert (Hin : In x (rev (ledger u db)))
        by (apply in_rev; rewrite rev_involutive; now apply in_ledger).
      destruct (rev (ledger u db)); [contradiction | discriminate].
  - intros Hnone. rewrite (Hrun db H).
    destruct (ledger u db) as [|r rs] eqn:E; [reflexivity|].
    exfalso. apply (Hnone r); apply (in_ledger db u r); rewrite E; now left.
  - intros itA amtA dA cA itB amtB dB cB dbA dbB OkA OkB.
    pose proof (store_inv_add db u itA amtA dA cA H) as HA. fold dbA in HA.
    pose proof (store_inv_add dbA u itB amtB dB cB HA) as HB. fold dbB in HB.
    assert (FA : in_int64 amtA = true).
    { unfold result in OkA. rewrite (add_expense_run _ _ _ _ _ _ H) in OkA.
      destruct (in_int64 amtA); [reflexivity | discriminate]. }
    assert (FB : in_int64 amtB = true).
    { unfold result in OkB. rewrite (add_expense_run _ _ _ _ _ _ HA) in OkB.
      destruct (in_int64 amtB); [reflexivity | discriminate]. }
    assert (EA : rows_of dbA
                 = rows_of db ++ [mkExpense (seq_of db + 1) u itA amtA dA cA])
      by (apply rows_after_add; assumption).
    assert (SA : seq_of dbA = seq_of db + 1)
      by (apply seq_after_add; assumption).
    assert (EB : rows_of dbB
                 = rows_of dbA ++ [mkExpense (seq_of dbA + 1) u itB amtB dB cB])
      by (apply rows_after_add; assumption).
    exists (seq_of db + 1), (seq_of dbA + 1).
    set (rB := mkExpense (seq_of dbA + 1) u itB amtB dB cB) in *.
    set (rA := mkExpense (seq_of db + 1) u itA amtA dA cA) in *.
    set (cond := fun r : expense =>
                   (user_id r =? u) && (id r =? seq_of dbA + 1)).
    assert (Hold : forall x, In x (rows_of dbA) -> cond x = false).
    { intros x Hx. unfold cond.
      assert (Hle : id x <= seq_of dbA).
      { destruct (store_inv_opened dbA HA) as (_ & _ & Hm & _). simpl in Hm.
        rewrite Forall_forall in Hm. now apply Hm. }
      destruct (Z.eqb_spec (id x) (seq_of dbA + 1)); [lia|].
      apply andb_false_r. }
    assert (HcB : cond rB = true).
    { unfold cond, rB. simpl. now rewrite !Z.eqb_refl. }
    split; [|split].
    + rewrite (Hrun dbB HB). unfold ledger. rewrite EB, filter_app. simpl.
      rewrite Z.eqb_refl, rev_app_distr. reflexivity.
    + unfold result, delete_expense, _delete_expense_sync.
      rewrite delete_where_run by (trivial || reflexivity). cbn [fst].
      fold cond. rewrite EB, filter_app, (filter_nothing _ _ Hold).
      cbn [filter app]. now rewrite HcB.
    + assert (Hdel : state_after (delete_expense u (seq_of dbA + 1)) dbB
                     = Some (mkTable full_columns (rows_of dbA) (seq_of dbB))).
      { unfold state_after, delete_expense, _delete_expense_sync.
        rewrite delete_where_run by (trivial || reflexivity). cbn [snd].
        change (fun r : expense =>
                  negb ((user_id r =? u) && (id r =? seq_of dbA + 1)))
          with (fun r : expense => negb (cond r)).
        rewrite EB, filter_app. cbn [filter]. rewrite HcB. cbn [negb].
        rewrite app_nil_r. do 2 f_equal.
        apply filter_everything. intros x Hx. now rewrite (Hold x Hx). }
      rewrite Hrun.
      * rewrite Hdel. unfold ledger. simpl. rewrite EA, filter_app. simpl.
        rewrite Z.eqb_refl, rev_app_distr. reflexivity.
      * apply (store_inv_delete dbB u (seq_of dbA + 1) HB).
Qed.

Lemma last_record_is_newest_witness :
  let dbA := state_after (add_expense 1 "choy" 3000 "2024-04-02" None) scenario in
  let dbB := state_after (add_expense 1 "non" 5000 "2024-04-03" None) dbA in
  store_inv scenario /\
  result (get_last_expense 1) scenario
  = Ok (Some (3, "rent", 500000, "2024-04-01", None)) /\
  (exists x, In x (rows_of scenario) /\ user_id x = 1 /\ id x = 3) /\
  result (add_expense 1 "choy" 3000 "2024-04-02" None) scenario = Ok tt /\
  result (add_expense 1 "non" 5000 "2024-04-03" None) dbA = Ok tt /\
  result (get_last_expense 1) dbB
  = Ok (Some (5, "non", 5000, "2024-04-03", None)) /\
  result (get_last_expense 1) (state_after (delete_expense 1 5) dbB)
  = Ok (Some (4, "choy", 3000, "2024-04-02", None)).
Proof.
  intros dbA dbB.
  assert (Hinv : store_inv scenario) by store_inv_by_computation.
  assert (OkA : result (add_expense 1 "choy" 3000 "2024-04-02" None) scenario
                = Ok tt) by reflexivity.
  assert (OkB : result (add_expense 1 "non" 5000 "2024-04-03" None) dbA
                = Ok tt) by reflexivity.
  destruct (last_record_is_newest scenario 1 Hinv) as (Hlast & _ & Hab).
  split; [assumption|]. split; [reflexivity|]. split.
  - vm_compute in Hlast. destruct Hlast as (r & Hq & Hin & Hu & _).
    exists r. injection Hq as E _ _ _ _. now repeat split.
  - split; [exact OkA|]. split; [exact OkB|].
    destruct (Hab "choy" 3000 "2024-04-02" None "non" 5000 "2024-04-03" None
                OkA OkB) as (idA & idB & HB & _ & HA).
    fold dbA dbB in HB, HA.
    assert (EB : idB = 5).
    { assert (E : result (get_last_expense 1) dbB
                  = Ok (Some (5, "non", 5000, "2024-04-03", None)))
        by reflexivity.
      rewrite E in HB. now injection HB. }
    subst idB. split; [exact HB|].
    assert (EA : idA = 4).
    { assert (E : result (get_last_expense 1)
                    (state_after (delete_expense 1 5) dbB)
                  = Ok (Some (4, "choy", 3000, "2024-04-02", None)))
        by reflexivity.
      rewrite E in HA. now injection HA. }
    subst idA. exact HA.
Defined.

(** ** GROUP BY *)

Section GroupFacts.

Lemma traverse_ext {A B} (f g : A -> outcome B) (l : list A) :
  (forall x, In x l -> f x = g x) -> traverse f l = traverse g l.
Proof.
  induction l as [|x l IH]; intros H; [reflexivity|].
  simpl. rewrite (H x) by now left.
  rewrite IH by (intros y Hy; apply H; now right). reflexivity.
Qed.

(** A traversal returns when every call returns, with the results in
    order. *)
Lemma traverse_ok {A B} (f : A -> outcome B) (g : A -> B) (l : list A) :
  (forall x, In x l -> f x = Ok (g x)) -> traverse f l = Ok (map g l).
Proof.
  induction l as [|x l IH]; intros H; [reflexivity|].
  simpl. rewrite (H x) by now left.
  rewrite IH by (intros y Hy; apply H; now right). reflexivity.
Qed.


Lemma traverse_returns {A B} (f : A -> outcome B) (l : list A) (ys : list B) :
  traverse f l = Ok ys -> forall x, In x l -> exists y, f x = Ok y.
Proof.
  revert ys. induction l as [|x l IH]; intros ys H; [intros ? []|].
  simpl in H. destruct (f x) as [y|e] eqn:E; [|discriminate].
  destruct (traverse f l) as [ys'|e] eqn:E'; [|discriminate].
  intros x' [<-|Hin]; [eauto | exact (IH ys' eq_refl x' Hin)].
Qed.

Lemma in_distinct (k : string) (ks : list string) :
  In k (distinct ks) <-> In k ks.
Proof.
  induction ks as [|k0 ks IH]; [reflexivity|].
  simpl. rewrite filter_In, IH, negb_true_iff.
  destruct (String.eqb_spec k k0) as [->|Hne]; intuition congruence.
Qed.

Lemma nodup_distinct (ks : list string) : NoDup (distinct ks).
Proof.
  induction ks as [|k0 ks IH]; simpl; constructor.
  - rewrite filter_In, negb_true_iff, String.eqb_refl. intros [_ H].
    discriminate H.
  - now apply NoDup_filter.
Qed.

(** The keys of the groups: the values of [cat] on the rows, each once,
    in ascending order. *)
Lemma in_keys (k : string) (rs : list expense) :
  In k (order_by text_asc (distinct (map cat rs)))
  <-> exists r, In r rs /\ cat r = k.
Proof.
  rewrite <- (Permutation_in' (eq_refl k) (order_by_perm text_asc _)).
  rewrite in_distinct, in_map_iff.
  split; intros (r & A & B); exists r; tauto.
Qed.

Lemma nodup_keys (rs : list expense) :
  NoDup (order_by text_asc (distinct (map cat rs))).
Proof.
  eapply Permutation_NoDup; [apply order_by_perm | apply nodup_distinct].
Qed.

Lemma group_of_cat (k : string) (rs : list expense) :
  group_of k (map (fun r => (cat r, amount r)) rs)
  = map amount (in_category k rs).
Proof.
  unfold group_of, in_category. induction rs as [|r rs IH]; [reflexivity|].
  cbn [map filter fst]. destruct (String.eqb (cat r) k); cbn [map snd];
    now rewrite IH.
Qed.

(** [GROUP BY cat] with [SUM(amount)]: one checked total per category. *)
Lemma group_sum_cat (rs : list expense) :
  group_sum (map (fun r => (cat r, amount r)) rs)
  = traverse (fun k => match checked_total (in_category k rs) with
                       | Ok t => Ok (k, t)
                       | Raise e => Raise e
                       end)
      (order_by text_asc (distinct (map cat rs))).
Proof.
  unfold group_sum. rewrite map_map. cbn [fst].
  apply traverse_ext. intros k _.
  rewrite group_of_cat, sum_amounts. unfold checked_total.
  destruct (sums_fit (in_category k rs)); [|reflexivity].
  now destruct (in_category k rs).
Qed.

(** What the grouping returns when it returns. *)
Lemma group_sum_returns (rs : list expense) (groups : list (string * Z)) :
  group_sum (map (fun r => (cat r, amount r)) rs) = Ok groups ->
  groups = map (fun k => (k, total (in_category k rs)))
               (order_by text_asc (distinct (map cat rs))) /\
  forall r, In r rs -> sums_fit (in_category (cat r) rs) = true.
Proof.
  rewrite group_sum_cat. intros H.
  assert (Hfit : forall k, In k (order_by text_asc (distinct (map cat rs))) ->
            sums_fit (in_category k rs) = true).
  { intros k Hk. destruct (traverse_returns _ _ _ H k Hk) as [y Hy].
    unfold checked_total in Hy.
    destruct (sums_fit (in_category k rs)); [reflexivity | discriminate]. }
  split.
  - rewrite (traverse_ok _ (fun k => (k, total (in_category k rs)))) in H.
    + now injection H as <-.
    + intros k Hk. unfold checked_total. now rewrite (Hfit k Hk).
  - intros r Hr. apply Hfit, in_keys. now exists r.
Qed.


Lemma group_sum_fits (rs : list expense) :
  (forall r, In r rs -> sums_fit (in_category (cat r) rs) = true) ->
  group_sum (map (fun r => (cat r, amount r)) rs)
  = Ok (map (fun k => (k, total (in_category k rs)))
            (order_by text_asc (distinct (map cat rs)))).
Proof.
  intros H. rewrite group_sum_cat. apply traverse_ok.
  intros k Hk. apply in_keys in Hk as (r & Hr & <-).
  unfold checked_total. now rewrite (H r Hr).
Qed.

Lemma sorter_perm {A} (leb : A -> A -> bool) (l : list A) :
  Permutation l (sorter leb l).
Proof.
  unfold sorter. rewrite <- order_by_perm. apply Permutation_rev.
Qed.


Lemma cat_label (r : expense) :
  (category r = None \/ category r = Some EmptyString -> cat r = "Boshqa") /\
  (forall c, category r = Some c -> c <> EmptyString -> cat r = c).
Proof.
  split.
  - intros [E|E]; unfold cat; rewrite E; reflexivity.
  - intros c E Hc. unfold cat. rewrite E. simpl.
    destruct (String.eqb_spec c EmptyString); [contradiction | reflexivity].
Qed.

End GroupFacts.




(* ================================================================== *)
(** * The schema *)

Section SchemaFacts.

Lemma category_listed (cols : list string) :
  existsb (String.eqb "category") cols = true <-> In "category" cols.
Proof.
  rewrite existsb_exists. split.
  - intros (c & Hin & E). apply String.eqb_eq in E. now subst c.
  - intros Hin. exists "category". split; [assumption | reflexivity].
Qed.

(** A second run returns as the first did and changes nothing. *)
Lemma ensure_schema_again (db : database) :
  _ensure_schema (state_after _ensure_schema db)
  = (result _ensure_schema db, state_after _ensure_schema db).
Proof.
  destruct db as [[cols rs sq]|]; [|reflexivity].
  unfold state_after, result, _ensure_schema, bind,
    create_table_if_not_exists, pragma_table_info, ret.
  cbn [columns].
  destruct (existsb (String.eqb "category") cols) eqn:E; cbn [negb fst snd].
  - cbn [columns]. now rewrite E.
  - unfold alter_table_add_category.
    destruct (has_column "category" (mkTable cols rs sq)) eqn:Hc;
      cbn [negb fst snd columns].
    + rewrite E. cbn [negb]. now rewrite Hc.
    + rewrite existsb_app. cbn [existsb]. rewrite String.eqb_refl.
      now rewrite orb_true_r.
Qed.

Lemma times_after_first (n : nat) (c : Conn unit) (db : database) :
  c db = (Ok tt, db) -> times n c db = (Ok tt, db).
Proof.
  intros H. induction n as [|n IH]; [reflexivity|].
  simpl. unfold bind. now rewrite H.
Qed.

End SchemaFacts.

(** C9. [_ensure_schema] is idempotent: run on the state it left, it
    returns as it did the first time and leaves the state as it is, so any
    number of calls in a row does what one call does.  It creates the table
    only on a file that has none, keeping an existing table's rows and
    counter; it looks for the column "category" among the table's column
    names and, when it is listed, changes nothing. *)
Theorem ensure_schema_idempotent (db : database) :
  let db' := state_after _ensure_schema db in
  _ensure_schema db' = (result _ensure_schema db, db') /\
  (forall n, times (S n) _ensure_schema db = _ensure_schema db) /\
  (db = None -> _ensure_schema db = (Ok tt, Some (mkTable full_columns [] 0))) /\
  (forall t, db = Some t ->
     state_after create_table_if_not_exists db = db /\
     (In "category" (columns t) -> _ensure_schema db = (Ok tt, db)) /\
     (~ In "category" (columns t) -> result _ensure_schema db = Ok tt ->
      db' = Some (mkTable (columns t ++ ["category"])
                          (map forget_category (rows t)) (seq t)))).
Proof.
  intros db'. pose proof (ensure_schema_again db) as Hagain. fold db' in Hagain.
  split; [exact Hagain|]. split; [|split].
  - intros n. simpl. unfold bind.
    destruct (_ensure_schema db) as [[[]|e] db1] eqn:E; [|reflexivity].
    apply times_after_first.
    unfold db', state_after, result in Hagain. now rewrite E in Hagain.
  - intros ->. reflexivity.
  - intros [cols rs sq] ->. split; [reflexivity|]. split.
    + intros Hin. apply category_listed in Hin. cbn [columns] in Hin.
      unfold _ensure_schema, bind, create_table_if_not_exists,
        pragma_table_info, ret.
      cbn [columns]. now rewrite Hin.
    + intros Hnin. unfold db', state_after, result, _ensure_schema, bind,
        create_table_if_not_exists, pragma_table_info, ret.
      cbn [columns rows seq] in *.
      destruct (existsb (String.eqb "category") cols) eqn:E.
      * apply category_listed in E. contradiction.
      * cbn [negb]. unfold alter_table_add_category.
        destruct (has_column "category" (mkTable cols rs sq));
          [discriminate | reflexivity].
Qed.

Lemma ensure_schema_idempotent_witness :
  let legacy :=
    Some (mkTable base_columns
            [mkExpense 1 7 "non" 5000 "2023-12-31" None] 1) in
  _ensure_schema (state_after _ensure_schema legacy)
  = (Ok tt, state_after _ensure_schema legacy) /\
  times 3 _ensure_schema legacy = _ensure_schema legacy /\
  state_after _ensure_schema legacy
  = Some (mkTable full_columns
            [mkExpense 1 7 "non" 5000 "2023-12-31" None] 1).
Proof.
  intros legacy.
  destruct (ensure_schema_idempotent legacy) as (Hagain & Htimes & _ & Hsome).
  split; [exact Hagain|]. split; [exact (Htimes 2%nat)|].
  destruct (Hsome _ eq_refl) as (_ & _ & Hadd).
  apply Hadd; [|reflexivity].
  simpl. intros H. repeat (destruct H as [H|H]; [discriminate H|]). exact H.
Defined.

(* ================================================================== *)
(** * The handlers *)

Section HandlerFacts.
Variable R : Str.runtime.

Lemma state_after_try_except (body : Conn unit) (db : database) :
  state_after (try_except body) db = state_after body db.
Proof.
  unfold state_after, try_except. now destruct (body db) as [[] ?].
Qed.

Lemma state_after_discard {A} (c : Conn A) (db : database) :
  state_after (_ <- c ;; ret tt) db = state_after c db.
Proof.
  unfold state_after, bind, ret. now destruct (c db) as [[] ?].
Qed.

Lemma kept_opened (db : database) : kept db -> kept (opened db).
Proof. intros [H Ha]. split; [now apply store_inv_opened | exact Ha]. Qed.

Lemma kept_filter (db : database) (p : expense -> bool) :
  kept db ->
  kept (Some (mkTable full_columns (filter p (rows_of db)) (seq_of db))).
Proof.
  intros [H Ha]. split.
  - apply store_inv_filter, (store_inv_opened db H).
  - unfold amounts_nonneg in *. simpl. rewrite Forall_forall in *.
    intros r Hr. apply Ha. apply filter_In in Hr. tauto.
Qed.

Lemma kept_add (db : database) (u : Z) (it : string) (amt : Z) (d : string)
    (c : option string) :
  kept db -> 0 <= amt -> kept (state_after (add_expense u it amt d c) db).
Proof.
  intros [H Ha] Hamt. split; [now apply store_inv_add|].
  unfold amounts_nonneg, state_after.
  rewrite (add_expense_run _ _ _ _ _ _ H).
  destruct (in_int64 amt); [|exact Ha]. cbn [snd rows_of rows].
  apply Forall_app. split; [exact Ha|]. now repeat constructor.
Qed.

Lemma kept_init (db : database) :
  kept db -> kept (state_after init_db db).
Proof.
  intros K. unfold state_after, init_db, _init_db_sync.
  rewrite (ensure_schema_run db (proj1 K)). now apply kept_opened.
Qed.

(** What a text message does to the file: nothing when the text does not
    parse; otherwise the schema is brought up to date and, when the driver
    takes the item and the amount, one row is appended. *)
Lemma text_message_state (db : database) (u : Z) (text : Str.text)
    (today : string) :
  store_inv db ->
  state_after (handle_expense_message R u text today) db
  = match parse_expense_message R text with
    | Ok (it, amt) =>
        match Str.utf8 it with
        | Some s => state_after (add_expense u s amt today None) db
        | None => opened db
        end
    | Raise _ => db
    end.
Proof.
  intros H. unfold handle_expense_message.
  destruct (parse_expense_message R text) as [[it amt]|e] eqn:E.
  - rewrite state_after_try_except. unfold add_expense_str.
    destruct (Str.utf8 it); [reflexivity|].
    unfold state_after, bind. now rewrite (ensure_schema_run db H).
  - now rewrite (parse_raises_ValueError R text e E).
Qed.

Lemma kept_handle (db : database) (upd : update) :
  kept db -> kept (state_after (handle R upd) db).
Proof.
  intros K. pose proof (proj1 K) as H.
  destruct upd as [u|u today|u y m|u|u|u text today]; simpl.
  - unfold cmd_hisobot.
    rewrite state_after_try_except, state_after_discard.
    unfold state_after. rewrite (get_all_expenses_run _ _ H).
    now apply kept_opened.
  - unfold cmd_bugun.
    rewrite state_after_try_except, state_after_discard.
    rewrite (get_expenses_by_date_run _ _ _ H). now apply kept_opened.
  - unfold cmd_oylik.
    rewrite state_after_try_except, state_after_discard.
    unfold state_after. rewrite (get_month_total_run _ _ _ _ H).
    now apply kept_opened.
  - unfold cmd_undo. rewrite state_after_try_except.
    unfold state_after, bind. rewrite (get_last_expense_run _ _ H).
    destruct (hd_error (rev (ledger u db))) as [r|]; simpl.
    + now apply kept_filter.
    + now apply kept_opened.
  - unfold cmd_clear.
    rewrite state_after_try_except, state_after_discard.
    unfold state_after. rewrite (delete_all_run _ _ H).
    now apply kept_filter.
  - rewrite (text_message_state _ _ _ _ H).
    destruct (parse_expense_message R text) as [[it amt]|e] eqn:E;
      [|exact K].
    destruct (Str.utf8 it); [|now apply kept_opened].
    apply kept_add; [exact K|].
    now apply parse_expense_message_ok in E.
Qed.

(** Every state the bot reaches is well kept and holds no negative
    amount. *)
Lemma reachable_kept (db : database) : reachable R db -> kept db.
Proof.
  induction 1 as [|db _ IH|db upd _ IH].
  - split; [store_inv_by_computation | constructor].
  - now apply kept_init.
  - now apply kept_handle.
Qed.

End HandlerFacts.

(** C8. In every state of the file that the bot reaches (records enter
    only through [handle_expense_message], after [parse_expense_message]
    accepted the text), the sum of a user's amounts of a month is not
    negative, and [get_month_total] returns that sum when it is below 2^63
    and raises "integer overflow" otherwise: whatever it returns is an
    integer that is not negative. *)
Theorem month_total_nonneg (R : Str.runtime) (db : database) (u year month : Z) :
  reachable R db ->
  let monthly := filter (dated_in u year month) (rows_of db) in
  0 <= total monthly /\
  result (get_month_total u year month) db
  = (if total monthly <? 2 ^ 63 then Ok (total monthly)
     else Raise (OperationalError "integer overflow")) /\
  (forall n, result (get_month_total u year month) db = Ok n -> 0 <= n).
Proof.
  intros Hr monthly. destruct (reachable_kept R db Hr) as [H Ha].
  assert (Hm : Forall (fun r => 0 <= amount r) monthly).
  { unfold amounts_nonneg in Ha. rewrite Forall_forall in *.
    intros r Hin. apply Ha. apply filter_In in Hin. tauto. }
  pose proof (total_nonneg monthly Hm) as Hpos.
  assert (E : result (get_month_total u year month) db
              = (if total monthly <? 2 ^ 63 then Ok (total monthly)
                 else Raise (OperationalError "integer overflow"))).
  { unfold result. rewrite (get_month_total_run _ _ _ _ H). cbn [fst].
    rewrite (filter_ext _ _ (in_month_prefix u year month)). fold monthly.
    now apply checked_total_nonneg. }
  split; [exact Hpos|]. split; [exact E|].
  intros n. rewrite E. destruct (total monthly <? 2 ^ 63); [|discriminate].
  now intros [= <-].
Qed.

Lemma month_total_nonneg_witness :
  let db :=
    state_after
      (handle Str.excerpt
         (TextMessage 1 (Str.of_string "non 5000") "2024-03-01"))
      (state_after init_db None) in
  reachable Str.excerpt db /\
  result (get_month_total 1 2024 3) db = Ok 5000 /\ 0 <= 5000.
Proof.
  intros db.
  assert (Hr : reachable Str.excerpt db)
    by (apply reach_update, reach_init).
  split; [exact Hr|].
  destruct (month_total_nonneg Str.excerpt db 1 2024 3 Hr)
    as (_ & _ & Hle).
  assert (E : result (get_month_total 1 2024 3) db = Ok 5000) by reflexivity.
  split; [exact E | exact (Hle 5000 E)].
Defined.

(* ================================================================== *)
(** * More about the store *)

Section MoreStoreRuns.

Lemma get_expenses_by_date_result (db : database) (u : Z) (d : string) :
  store_inv db ->
  result (get_expenses_by_date u d) db
  = Ok (map triple (filter (fun r => String.eqb (date r) d) (ledger u db))).
Proof.
  intros H.
  unfold result, get_expenses_by_date, _get_expenses_by_date_sync,
    select_where, bind, ret.
  rewrite (ensure_schema_run db H). unfold opened.
  rewrite resolve_full by reflexivity. cbn [rows fst].
  unfold ledger. rewrite filter_filter.
  rewrite order_by_id_asc; [reflexivity|].
  apply filter_sorted_ids. apply store_inv_opened in H. apply H.
Qed.

Lemma get_expenses_by_month_run (db : database) (u y m : Z) :
  store_inv db ->
  get_expenses_by_month u y m db
  = (Ok (map quintuple
           (order_by date_id_asc (filter (in_month u y m) (rows_of db)))),
     opened db).
Proof.
  intros H.
  unfold get_expenses_by_month, _get_expenses_by_month_sync,
    select_where, bind, ret.
  rewrite (ensure_schema_run db H). unfold opened.
  now rewrite resolve_full by reflexivity.
Qed.

Lemma map_triple_filter (p : expense -> bool)
    (q : string * Z * string -> bool) (rs : list expense) :
  (forall r, q (triple r) = p r) ->
  map triple (filter p rs) = filter q (map triple rs).
Proof.
  intros Hq. induction rs as [|r rs IH]; [reflexivity|].
  simpl. rewrite Hq. destruct (p r); simpl; now rewrite IH.
Qed.

Lemma total_perm (l l' : list expense) :
  Permutation l l' -> total l = total l'.
Proof.
  unfold total. induction 1; simpl; lia.
Qed.

Lemma date_id_asc_total (a b : expense) :
  date_id_asc a b = false -> date_id_asc b a = true.
Proof.
  unfold date_id_asc. rewrite (String.compare_antisym (date b) (date a)).
  destruct (String.compare (date a) (date b)); simpl; try discriminate.
  - rewrite Z.leb_gt, Z.leb_le. lia.
  - reflexivity.
Qed.

Lemma date_id_asc_spec (a b : expense) :
  date_id_asc a b = true -> by_date_then_id a b.
Proof.
  unfold date_id_asc, by_date_then_id.
  destruct (String.compare (date a) (date b)) eqn:E; try discriminate.
  - intros Hle. right. split; [now apply String.compare_eq_iff |].
    now apply Z.leb_le.
  - intros _. now left.
Qed.

Lemma order_by_date_id_sorted (l : list expense) :
  Sorted by_date_then_id (order_by date_id_asc l).
Proof.
  assert (Hs := order_by_sorted date_id_asc l date_id_asc_total).
  induction Hs as [|a l' _ IH Hhd]; constructor; [assumption|].
  destruct Hhd as [|b l'' Hab]; constructor. now apply date_id_asc_spec.
Qed.

End MoreStoreRuns.

(** X1. [get_expenses_by_date] returns [get_all_expenses] restricted to the
    records whose date is exactly the given string, in the same order. *)
Theorem by_date_is_filtered_list_all (db : database) (u : Z) (d : string) :
  store_inv db ->
  exists every,
    result (get_all_expenses u) db = Ok every /\
    result (get_expenses_by_date u d) db
    = Ok (filter (fun t => String.eqb (snd t) d) every).
Proof.
  intros H. exists (map triple (ledger u db)). split.
  - unfold result. now rewrite (get_all_expenses_run _ _ H).
  - rewrite (get_expenses_by_date_result _ _ _ H). f_equal.
    now apply map_triple_filter.
Qed.

Lemma by_date_is_filtered_list_all_witness :
  store_inv scenario /\
  result (get_expenses_by_date 1 "2024-03-01") scenario
  = Ok [("bread", 5000, "2024-03-01")] /\
  result (get_expenses_by_date 1 "2024-03") scenario = Ok [].
Proof.
  assert (Hinv : store_inv scenario) by store_inv_by_computation.
  split; [assumption|].
  destruct (by_date_is_filtered_list_all scenario 1 "2024-03-01" Hinv)
    as (e1 & He1 & Hd1).
  destruct (by_date_is_filtered_list_all scenario 1 "2024-03" Hinv)
    as (e2 & He2 & Hd2).
  vm_compute in He1, He2. injection He1 as <-. injection He2 as <-.
  split; [exact Hd1 | exact Hd2].
Defined.

(** X2. [get_expenses_by_month] returns the user's records of the month,
    each once, ordered by date and then by id; their amounts add up to
    what [get_month_total] returns for the same month, when that call
    returns: it raises "integer overflow" when the running totals of the
    amounts, in the order of the rows of the table, do not all fit in 64
    bits. *)
Theorem by_month_lists_the_month (db : database) (u year month : Z) :
  store_inv db ->
  exists rs,
    result (get_expenses_by_month u year month) db = Ok (map quintuple rs) /\
    Permutation (filter (dated_in u year month) (rows_of db)) rs /\
    Sorted by_date_then_id rs /\
    result (get_month_total u year month) db
    = (if sums_fit (filter (dated_in u year month) (rows_of db))
       then Ok (total rs)
       else Raise (OperationalError "integer overflow")).
Proof.
  intros H.
  exists (order_by date_id_asc (filter (in_month u year month) (rows_of db))).
  pose proof (order_by_perm date_id_asc
                (filter (in_month u year month) (rows_of db))) as Hperm.
  split; [|split; [|split]].
  - unfold result. now rewrite (get_expenses_by_month_run _ _ _ _ H).
  - rewrite <- (filter_ext _ _ (in_month_prefix u year month)). exact Hperm.
  - apply order_by_date_id_sorted.
  - unfold result. rewrite (get_month_total_run _ _ _ _ H). cbn [fst].
    rewrite <- (filter_ext _ _ (in_month_prefix u year month)).
    unfold checked_total. now rewrite (total_perm _ _ Hperm).
Qed.

Lemma by_month_lists_the_month_witness :
  store_inv scenario /\
  result (get_expenses_by_month 1 2024 3) scenario
  = Ok [(1, "bread", 5000, "2024-03-01", None);
        (2, "coffee", 12000, "2024-03-15", None)] /\
  exists rs,
    Permutation (filter (dated_in 1 2024 3) (rows_of scenario)) rs /\
    result (get_month_total 1 2024 3) scenario = Ok (total rs).
Proof.
  assert (Hinv : store_inv scenario) by store_inv_by_computation.
  split; [assumption|]. split; [reflexivity|].
  destruct (by_month_lists_the_month scenario 1 2024 3 Hinv)
    as (rs & _ & Hperm & _ & Htotal).
  exists rs. split; [exact Hperm | exact Htotal].
Defined.

Section MoreGroupFacts.

Lemma sum_totals_perm (l l' : list (string * Z)) :
  Permutation l l' -> sum_totals l = sum_totals l'.
Proof. unfold sum_totals. induction 1; simpl; lia. Qed.

Lemma share_absent (r : expense) (keys : list string) :
  ~ In (cat r) keys -> share r keys = 0.
Proof.
  unfold share. induction keys as [|k keys IH]; [reflexivity|].
  intros Hnin. simpl.
  destruct (String.eqb_spec (cat r) k) as [E|_];
    [exfalso; apply Hnin; now left|].
  rewrite IH; [reflexivity|]. intros Hin. apply Hnin. now right.
Qed.

Lemma share_once (r : expense) (keys : list string) :
  NoDup keys -> In (cat r) keys -> share r keys = amount r.
Proof.
  unfold share. induction 1 as [|k keys Hnin Hnd IH]; [intros []|].
  intros Hin. simpl. destruct (String.eqb_spec (cat r) k) as [E|Hne].
  - subst k. fold (share r keys). rewrite (share_absent r keys Hnin). lia.
  - destruct Hin as [E|Hin]; [congruence|]. rewrite (IH Hin). lia.
Qed.

Lemma totals_cons (r : expense) (rs : list expense) (keys : list string) :
  fold_right Z.add 0 (map (fun k => total (in_category k (r :: rs))) keys)
  = share r keys
    + fold_right Z.add 0 (map (fun k => total (in_category k rs)) keys).
Proof.
  assert (Hone : forall k,
            total (in_category k (r :: rs))
            = (if String.eqb (cat r) k then amount r else 0)
              + total (in_category k rs)).
  { intros k. unfold in_category, total. cbn [filter].
    now destruct (String.eqb (cat r) k). }
  unfold share. induction keys as [|k keys IH]; [reflexivity|].
  cbn [map fold_right]. rewrite IH, Hone. lia.
Qed.

(** Over categories that are listed once each and cover the rows, the
    totals of the categories add up to the total of the rows. *)
Lemma total_by_category (rs : list expense) (keys : list string) :
  NoDup keys -> (forall r, In r rs -> In (cat r) keys) ->
  fold_right Z.add 0 (map (fun k => total (in_category k rs)) keys)
  = total rs.
Proof.
  intros Hnd. induction rs as [|r rs IH]; intros Hcover.
  - unfold in_category, total. simpl. clear Hnd Hcover.
    induction keys as [|k keys IHk]; [reflexivity | exact IHk].
  - rewrite totals_cons, IH by (intros x Hx; apply Hcover; now right).
    rewrite (share_once r keys Hnd) by (apply Hcover; now left).
    reflexivity.
Qed.

Lemma total_filter_le (p : expense -> bool) (rs : list expense) :
  Forall (fun r => 0 <= amount r) rs ->
  0 <= total (filter p rs) <= total rs.
Proof.
  unfold total. induction 1 as [|r rs Hr _ IH]; simpl; [lia|].
  destruct (p r); simpl; lia.
Qed.

(** Amounts that are not negative and add up to less than 2^63 fit in
    every category. *)
Lemma categories_fit (rs : list expense) :
  Forall (fun r => 0 <= amount r) rs -> total rs < 2 ^ 63 ->
  forall k, sums_fit (in_category k rs) = true.
Proof.
  intros Hpos Hlt k. rewrite sums_fit_nonneg.
  - apply Z.ltb_lt.
    pose proof (total_filter_le (fun r => String.eqb (cat r) k) rs Hpos).
    unfold in_category. lia.
  - unfold in_category. rewrite Forall_forall in *. intros r Hr.
    apply Hpos. apply filter_In in Hr. tauto.
Qed.

Lemma distinct_constant (c : string) (ks : list string) :
  ks <> [] -> (forall k, In k ks -> k = c) -> distinct ks = [c].
Proof.
  induction ks as [|k ks IH]; [contradiction|]. intros _ Hall.
  simpl. rewrite (Hall k) by now left. f_equal.
  apply filter_nothing. intros k' Hk'. apply (proj1 (in_distinct _ _)) in Hk'.
  rewrite (Hall k') by now right. now rewrite String.eqb_refl.
Qed.

End MoreGroupFacts.

(** X3. The totals that [get_month_category_totals] returns add up to the
    month total that [get_month_total] returns: no amount of the month is
    lost or counted twice by the grouping.  Both calls return when the
    amounts of the month are not negative and add up to less than 2^63. *)
Theorem category_totals_add_up (db : database) (u year month : Z) :
  store_inv db ->
  let monthly := filter (dated_in u year month) (rows_of db) in
  (forall groups n,
      result (get_month_category_totals u year month) db = Ok groups ->
      result (get_month_total u year month) db = Ok n ->
      sum_totals groups = n) /\
  (Forall (fun r => 0 <= amount r) monthly -> total monthly < 2 ^ 63 ->
   exists groups,
     result (get_month_category_totals u year month) db = Ok groups /\
     result (get_month_total u year month) db = Ok (total monthly) /\
     sum_totals groups = total monthly).
Proof.
  intros H monthly. unfold result.
  rewrite (get_month_category_totals_run _ _ _ _ H).
  rewrite (get_month_total_run _ _ _ _ H).
  rewrite (filter_ext _ _ (in_month_prefix u year month)). fold monthly.
  cbn [fst].
  assert (Hsum : forall groups,
            group_sum (map (fun r => (cat r, amount r)) monthly) = Ok groups ->
            sum_totals (sorter total_desc groups) = total monthly).
  { intros groups E. apply group_sum_returns in E as [-> _].
    rewrite <- (sum_totals_perm _ _ (sorter_perm total_desc _)).
    unfold sum_totals. rewrite map_map. cbn [snd].
    apply total_by_category; [apply nodup_keys|].
    intros r Hr. apply in_keys. now exists r. }
  split.
  - intros groups n Hg Hn.
    destruct (group_sum _) as [g|e] eqn:E; [|discriminate].
    injection Hg as <-. rewrite (Hsum g eq_refl).
    unfold checked_total in Hn.
    destruct (sums_fit monthly); [|discriminate]. now injection Hn.
  - intros Hpos Hlt.
    assert (Hfit : forall r, In r monthly ->
              sums_fit (in_category (cat r) monthly) = true)
      by (intros r _; now apply categories_fit).
    pose proof (group_sum_fits monthly Hfit) as E. rewrite E.
    eexists. split; [reflexivity|]. split.
    + rewrite (checked_total_nonneg _ Hpos).
      destruct (Z.ltb_spec (total monthly) (2 ^ 63)); [reflexivity | lia].
    + exact (Hsum _ E).
Qed.

Lemma category_totals_add_up_witness :
  store_inv scenario /\
  exists groups,
    result (get_month_category_totals 1 2024 3) scenario = Ok groups /\
    sum_totals groups = 17000.
Proof.
  assert (Hinv : store_inv scenario) by store_inv_by_computation.
  split; [assumption|].
  destruct (category_totals_add_up scenario 1 2024 3 Hinv) as (Hsum & _).
  exists [("Boshqa", 17000)]. split; [reflexivity|].
  apply Hsum; reflexivity.
Defined.

(** X4. When no record of the month carries a category (NULL or the
    empty string), [get_month_category_totals] returns the empty list if
    the month has no record at all, and otherwise the single group "Boshqa"
    with the whole month total; it raises "integer overflow" when the
    running totals of the month do not fit in 64 bits. *)
Theorem uncategorised_month_is_one_group (db : database) (u year month : Z) :
  store_inv db ->
  let monthly := filter (dated_in u year month) (rows_of db) in
  Forall (fun r => category r = None \/ category r = Some EmptyString)
         monthly ->
  result (get_month_category_totals u year month) db
  = match monthly with
    | [] => Ok []
    | _ =>
        if sums_fit monthly then Ok [("Boshqa", total monthly)]
        else Raise (OperationalError "integer overflow")
    end.
Proof.
  intros H monthly Hcat. unfold result.
  rewrite (get_month_category_totals_run _ _ _ _ H).
  rewrite (filter_ext _ _ (in_month_prefix u year month)). fold monthly.
  cbn [fst]. rewrite group_sum_cat.
  assert (Hall : forall r, In r monthly -> cat r = "Boshqa").
  { intros r Hr. rewrite Forall_forall in Hcat.
    exact (proj1 (cat_label r) (Hcat r Hr)). }
  destruct monthly as [|r rs] eqn:E; [reflexivity|]. rewrite <- E in *.
  assert (Hkeys : distinct (map cat monthly) = ["Boshqa"]).
  { apply distinct_constant; [rewrite E; discriminate|].
    intros k Hk. apply in_map_iff in Hk as (x & <- & Hx). now apply Hall. }
  assert (Hin : in_category "Boshqa" monthly = monthly).
  { apply filter_everything. intros x Hx.
    rewrite (Hall x Hx). apply String.eqb_refl. }
  rewrite Hkeys. cbn [order_by insert_sorted traverse]. rewrite Hin.
  unfold checked_total. now destruct (sums_fit monthly).
Qed.

Lemma uncategorised_month_is_one_group_witness :
  store_inv scenario /\
  Forall (fun r => category r = None \/ category r = Some EmptyString)
         (filter (dated_in 1 2024 3) (rows_of scenario)) /\
  result (get_month_category_totals 1 2024 3) scenario
  = Ok [("Boshqa", 17000)].
Proof.
  assert (Hinv : store_inv scenario) by store_inv_by_computation.
  assert (Hcat : Forall
            (fun r => category r = None \/ category r = Some EmptyString)
            (filter (dated_in 1 2024 3) (rows_of scenario)))
    by (repeat constructor).
  repeat (split; [assumption|]).
  exact (uncategorised_month_is_one_group scenario 1 2024 3 Hinv Hcat).
Defined.

(** X5. The functions that only read (listing, by date, by month, month
    total, last record, category totals) leave every record and the id
    counter as they are; all they may change is the schema, which they
    bring to the six columns. *)
Theorem queries_keep_records (db : database) (u year month : Z) (d : string) :
  store_inv db ->
  state_after (get_all_expenses u) db = opened db /\
  state_after (get_expenses_by_date u d) db = opened db /\
  state_after (get_expenses_by_month u year month) db = opened db /\
  state_after (get_month_total u year month) db = opened db /\
  state_after (get_last_expense u) db = opened db /\
  state_after (get_month_category_totals u year month) db = opened db /\
  rows_of (opened db) = rows_of db /\
  seq_of (opened db) = seq_of db.
Proof.
  intros H. unfold state_after.
  rewrite (get_all_expenses_run _ _ H), (get_expenses_by_month_run _ _ _ _ H),
    (get_month_total_run _ _ _ _ H), (get_last_expense_run _ _ H),
    (get_month_category_totals_run _ _ _ _ H).
  pose proof (get_expenses_by_date_run db u d H) as Hd.
  unfold state_after in Hd. rewrite Hd. repeat split.
Qed.

Lemma queries_keep_records_witness :
  let legacy :=
    Some (mkTable base_columns
            [mkExpense 1 7 "non" 5000 "2023-12-31" None] 1) in
  store_inv legacy /\
  rows_of (state_after (get_month_total 7 2023 12) legacy) = rows_of legacy /\
  rows_of (state_after (get_last_expense 7) legacy) = rows_of legacy.
Proof.
  intros legacy.
  assert (Hinv : store_inv legacy) by store_inv_by_computation.
  split; [assumption|].
  destruct (queries_keep_records legacy 7 2023 12 "2023-12-31" Hinv)
    as (_ & _ & _ & Hm & Hl & _ & Hrows & _).
  rewrite Hm, Hl. split; exact Hrows.
Defined.

Section IdFacts.

Lemma ids_below_seq (db : database) :
  store_inv db -> Forall (fun r => id r <= seq_of db) (rows_of db).
Proof.
  intros H. apply store_inv_opened in H. destruct H as (_ & _ & Hm & _).
  exact Hm.
Qed.

Lemma delete_expense_run (db : database) (u eid : Z) :
  store_inv db ->
  delete_expense u eid db
  = (Ok (Z.of_nat (List.length
           (filter (fun r => (user_id r =? u) && (id r =? eid))
                   (rows_of db)))),
     Some (mkTable full_columns
             (filter (fun r => negb ((user_id r =? u) && (id r =? eid)))
                     (rows_of db))
             (seq_of db))).
Proof.
  intros H. unfold delete_expense, _delete_expense_sync.
  now rewrite delete_where_run by (trivial || reflexivity).
Qed.

End IdFacts.

(** X6. Ids are not given twice: a record inserted after a deletion, by
    [delete_expense] or by [delete_all_expenses], gets an id above the id
    of every record the table held before the deletion, the deleted ones
    included.  (The amount is one the driver takes, in the 64-bit
    range.) *)
Theorem deleted_ids_are_not_reused (db : database) (u eid v : Z)
    (it : string) (amt : Z) (d : string) (c : option string) :
  store_inv db -> - 2 ^ 63 <= amt < 2 ^ 63 ->
  let fresh := mkExpense (seq_of db + 1) v it amt d c in
  let db1 := state_after (delete_expense u eid) db in
  let db2 := state_after (delete_all_expenses u) db in
  rows_of (state_after (add_expense v it amt d c) db1)
  = rows_of db1 ++ [fresh] /\
  rows_of (state_after (add_expense v it amt d c) db2)
  = rows_of db2 ++ [fresh] /\
  Forall (fun r => id r < id fresh) (rows_of db).
Proof.
  intros H Hamt fresh db1 db2. apply in_int64_spec in Hamt.
  pose proof (store_inv_delete db u eid H) as H1. fold db1 in H1.
  pose proof (store_inv_delete_all db u H) as H2. fold db2 in H2.
  rewrite (rows_after_add _ _ _ _ _ _ H1 Hamt),
    (rows_after_add _ _ _ _ _ _ H2 Hamt).
  assert (S1 : seq_of db1 = seq_of db).
  { unfold db1, state_after. now rewrite (delete_expense_run _ _ _ H). }
  assert (S2 : seq_of db2 = seq_of db).
  { unfold db2, state_after. now rewrite (delete_all_run _ _ H). }
  rewrite S1, S2. repeat split.
  eapply Forall_impl; [|exact (ids_below_seq db H)].
  intros r Hr. subst fresh. cbn in *. lia.
Qed.

Lemma deleted_ids_are_not_reused_witness :
  store_inv scenario /\ - 2 ^ 63 <= 3000 < 2 ^ 63 /\
  rows_of (state_after (add_expense 1 "choy" 3000 "2024-04-02" None)
             (state_after (delete_expense 1 3) scenario))
  = [mkExpense 1 1 "bread" 5000 "2024-03-01" None;
     mkExpense 2 1 "coffee" 12000 "2024-03-15" None;
     mkExpense 4 1 "choy" 3000 "2024-04-02" None].
Proof.
  assert (Hinv : store_inv scenario) by store_inv_by_computation.
  assert (Hamt : - 2 ^ 63 <= 3000 < 2 ^ 63) by lia.
  repeat (split; [assumption|]).
  destruct (deleted_ids_are_not_reused scenario 1 3 1 "choy" 3000
              "2024-04-02" None Hinv Hamt) as (Hrows & _ & _).
  rewrite Hrows. reflexivity.
Defined.

(** X7. [get_last_expense] and [get_all_expenses] agree: the record the
    first returns is the last entry of the listing the second returns,
    and it returns None exactly when that listing is empty. *)
Theorem last_record_ends_the_listing (db : database) (u : Z) :
  store_inv db ->
  exists every,
    result (get_all_expenses u) db = Ok every /\
    match result (get_last_expense u) db with
    | Ok None => every = []
    | Ok (Some (_, it, amt, d, _)) =>
        exists front, every = front ++ [(it, amt, d)]
    | Raise _ => False
    end.
Proof.
  intros H. exists (map triple (ledger u db)). unfold result.
  rewrite (get_all_expenses_run _ _ H), (get_last_expense_run _ _ H).
  split; [reflexivity|]. simpl.
  destruct (ledger u db) as [|r rs] eqn:E using rev_ind; [reflexivity|].
  rewrite rev_app_distr. simpl.
  exists (map triple rs). now rewrite map_app.
Qed.

Lemma last_record_ends_the_listing_witness :
  store_inv scenario /\
  exists front,
    result (get_all_expenses 1) scenario
    = Ok (front ++ [("rent", 500000, "2024-04-01")]).
Proof.
  assert (Hinv : store_inv scenario) by store_inv_by_computation.
  split; [assumption|].
  destruct (last_record_ends_the_listing scenario 1 Hinv) as (every & He & Hl).
  vm_compute in Hl. destruct Hl as (front & ->). exists front. exact He.
Defined.

(** X8. Deleting by id is idempotent: a second [delete_expense] with the
    same arguments returns 0 and leaves the file as the first call left
    it. *)
Theorem delete_by_id_twice (db : database) (u eid : Z) :
  store_inv db ->
  let db' := state_after (delete_expense u eid) db in
  delete_expense u eid db' = (Ok 0, db').
Proof.
  intros H db'.
  pose proof (store_inv_delete db u eid H) as H'. fold db' in H'.
  rewrite (delete_expense_run _ _ _ H').
  assert (E : rows_of db'
              = filter (fun r => negb ((user_id r =? u) && (id r =? eid)))
                       (rows_of db)).
  { unfold db', state_after. now rewrite (delete_expense_run _ _ _ H). }
  assert (S : seq_of db' = seq_of db).
  { unfold db', state_after. now rewrite (delete_expense_run _ _ _ H). }
  assert (Hnone : forall x, In x (rows_of db') ->
            (user_id x =? u) && (id x =? eid) = false).
  { intros x Hx. rewrite E in Hx. apply filter_In in Hx as [_ Hx].
    now apply negb_true_iff in Hx. }
  rewrite (filter_nothing _ _ Hnone).
  rewrite filter_everything by (intros x Hx; now rewrite (Hnone x Hx)).
  simpl. f_equal. unfold db' at 3, state_after.
  rewrite (delete_expense_run _ _ _ H). simpl. now rewrite <- E, S.
Qed.

Lemma delete_by_id_twice_witness :
  store_inv scenario /\
  result (delete_expense 1 2) scenario = Ok 1 /\
  result (delete_expense 1 2) (state_after (delete_expense 1 2) scenario)
  = Ok 0.
Proof.
  assert (Hinv : store_inv scenario) by store_inv_by_computation.
  split; [assumption|]. split; [reflexivity|].
  unfold result. now rewrite (delete_by_id_twice scenario 1 2 Hinv).
Defined.

(* ================================================================== *)
(** * More about the parser *)

Section TokenFacts.
Variable R : Str.runtime.

Local Notation "'nonspace'" := (fun c : N => negb (Str.isspace_char R c)).
Local Notation "'token'" := (fun t : Str.text => Str.is_token R t = true).

Lemma split_from_nil (s cur : Str.text) :
  Str.split_from R cur s = [] ->
  cur = [] /\ forallb (Str.isspace_char R) s = true.
Proof.
  revert cur. induction s as [|c s IH]; intros cur H; simpl in *.
  - destruct cur; [now split | discriminate].
  - destruct (Str.isspace_char R c) eqn:Hc.
    + destruct cur; [|discriminate]. split; [reflexivity|].
      now apply (IH []).
    + apply IH in H as [H _]. destruct cur; discriminate.
Qed.

Lemma lstrip_spaces (s : Str.text) :
  forallb (Str.isspace_char R) s = true -> Str.lstrip R s = [].
Proof.
  induction s as [|c s IH]; simpl; [reflexivity|].
  intros H. apply andb_prop in H as [Hc Hs]. now rewrite Hc, IH.
Qed.

(** A text trims to nothing exactly when it has no token. *)
Lemma strip_empty_iff (s : Str.text) :
  is_empty (Str.strip R s) = true <-> Str.split R s = [].
Proof.
  split.
  - intros H. rewrite <- split_strip.
    destruct (Str.strip R s); [reflexivity | discriminate].
  - intros H. apply split_from_nil in H as [_ H].
    unfold Str.strip. now rewrite (lstrip_spaces s H).
Qed.

Lemma split_from_tokens (s cur : Str.text) :
  forallb nonspace cur = true ->
  Forall token (Str.split_from R cur s).
Proof.
  revert cur. induction s as [|c s IH]; intros cur Hcur; simpl.
  - destruct cur; constructor; [exact Hcur | constructor].
  - destruct (Str.isspace_char R c) eqn:Hc.
    + destruct cur; [now apply IH|].
      constructor; [exact Hcur | now apply IH].
    + apply IH. rewrite forallb_app, Hcur. simpl.
      now rewrite Hc.
Qed.

Lemma split_tokens (s : Str.text) : Forall token (Str.split R s).
Proof. now apply split_from_tokens. Qed.

Lemma token_chars (t : Str.text) :
  token t ->
  exists c t', t = c :: t' /\ Str.isspace_char R c = false /\
               forallb nonspace t = true.
Proof.
  destruct t as [|c t']; [discriminate|]. intros H.
  exists c, t'. split; [reflexivity|]. split; [|exact H].
  simpl in H. apply andb_prop in H as [H _].
  now apply negb_true_iff in H.
Qed.

Lemma rstrip_nonspace (s : Str.text) :
  forallb nonspace s = true -> Str.rstrip R s = s.
Proof.
  induction s as [|c s IH]; simpl; [reflexivity|].
  intros H. apply andb_prop in H as [Hc Hs]. rewrite (IH Hs).
  apply negb_true_iff in Hc. rewrite Hc. now destruct s.
Qed.

Lemma rstrip_app (a b : Str.text) :
  Str.rstrip R b <> [] -> Str.rstrip R (a ++ b) = a ++ Str.rstrip R b.
Proof.
  intros Hb. induction a as [|c a IH]; [reflexivity|].
  simpl. rewrite IH.
  destruct (a ++ Str.rstrip R b) eqn:E; [|reflexivity].
  destruct a; simpl in E; [contradiction | discriminate].
Qed.

Lemma join_cons (sep t : Str.text) (ts : list Str.text) :
  Str.join sep (t :: ts)
  = match ts with
    | [] => t
    | _ => t ++ sep ++ Str.join sep ts
    end.
Proof. reflexivity. Qed.

Lemma join_head (t : Str.text) (ts : list Str.text) (c : N) (t' : Str.text) :
  t = c :: t' -> exists rest, Str.join [32%N] (t :: ts) = c :: rest.
Proof.
  intros ->. rewrite join_cons. destruct ts; simpl; eauto.
Qed.

Lemma rstrip_join (t : Str.text) (ts : list Str.text) :
  Forall token (t :: ts) ->
  Str.rstrip R (Str.join [32%N] (t :: ts)) = Str.join [32%N] (t :: ts).
Proof.
  revert t. induction ts as [|t2 ts IH]; intros t H.
  - inversion H as [|? ? Ht _]; subst.
    destruct (token_chars t Ht) as (c & t' & _ & _ & Hn).
    now apply rstrip_nonspace.
  - inversion H as [|? ? Ht Hts]; subst. specialize (IH t2 Hts).
    destruct (token_chars t Ht) as (c & t' & _ & _ & Hn).
    inversion Hts as [|? ? Ht2 _]; subst.
    destruct (token_chars t2 Ht2) as (c2 & t2' & E2 & _ & _).
    destruct (join_head t2 ts c2 t2' E2) as (rest & Hj).
    rewrite join_cons. set (J := Str.join [32%N] (t2 :: ts)) in *.
    assert (HJ : Str.rstrip R ([32%N] ++ J) = [32%N] ++ J).
    { rewrite rstrip_app; rewrite IH; [reflexivity|].
      rewrite Hj. discriminate. }
    rewrite rstrip_app; rewrite HJ; [reflexivity | discriminate].
Qed.

(** Tokens joined by single spaces are already trimmed. *)
Lemma strip_join (t : Str.text) (ts : list Str.text) :
  Forall token (t :: ts) ->
  Str.strip R (Str.join [32%N] (t :: ts)) = Str.join [32%N] (t :: ts).
Proof.
  intros H. unfold Str.strip.
  inversion H as [|? ? Ht _]; subst.
  destruct (token_chars t Ht) as (c & t' & E & Hc & _).
  destruct (join_head t ts c t' E) as (rest & Hj).
  assert (Hl : Str.lstrip R (Str.join [32%N] (t :: ts))
               = Str.join [32%N] (t :: ts)).
  { rewrite Hj. simpl. now rewrite Hc. }
  rewrite Hl. now apply rstrip_join.
Qed.

Lemma split_from_token (tok cur rest : Str.text) :
  forallb nonspace tok = true ->
  Str.split_from R cur (tok ++ rest) = Str.split_from R (cur ++ tok) rest.
Proof.
  revert cur. induction tok as [|c tok IH]; intros cur H.
  - now rewrite app_nil_r.
  - simpl in H. apply andb_prop in H as [Hc Htok].
    apply negb_true_iff in Hc. simpl. rewrite Hc, (IH _ Htok).
    now rewrite <- app_assoc.
Qed.

Lemma split_from_space (cur s : Str.text) :
  Str.split_from R cur (32%N :: s)
  = match cur with
    | [] => Str.split_from R [] s
    | _ => cur :: Str.split_from R [] s
    end.
Proof. reflexivity. Qed.

(** Splitting undoes joining with single spaces. *)
Lemma split_join (ts : list Str.text) :
  Forall token ts -> Str.split R (Str.join [32%N] ts) = ts.
Proof.
  unfold Str.split. destruct ts as [|t ts]; [reflexivity|]. revert t.
  induction ts as [|t2 ts IH]; intros t H; inversion H as [|? ? Ht Hts]; subst;
    destruct (token_chars t Ht) as (c & t' & E & _ & Hn).
  - simpl Str.join. rewrite <- (app_nil_r t) at 1.
    rewrite (split_from_token _ _ _ Hn). simpl. now rewrite E.
  - rewrite join_cons. rewrite (split_from_token _ _ _ Hn).
    change ([32%N] ++ Str.join [32%N] (t2 :: ts))
      with (32%N :: Str.join [32%N] (t2 :: ts)).
    rewrite split_from_space, (IH t2 Hts).
    change ([] ++ t) with t. now rewrite E.
Qed.

Lemma front_tokens (ts : list Str.text) :
  ts <> [] -> Forall token ts -> Forall token (removelast ts).
Proof.
  intros Hne H. rewrite Forall_forall in *. intros x Hx. apply H.
  rewrite (app_removelast_last [] Hne). apply in_or_app. now left.
Qed.

Lemma parse_tokens_correct (text : Str.text) :
  parse_expense_message R text = parse_tokens R (Str.split R text).
Proof.
  unfold parse_expense_message. rewrite split_strip.
  pose proof (strip_empty_iff text) as Hempty.
  pose proof (split_tokens text) as Htok.
  destruct (Str.split R text) as [|t1 [|t2 ts]] eqn:E.
  - rewrite (proj2 Hempty eq_refl). reflexivity.
  - destruct Hempty as [Hfwd _].
    destruct (is_empty (Str.strip R text));
      [discriminate (Hfwd eq_refl) | reflexivity].
  - destruct Hempty as [Hfwd _].
    destruct (is_empty (Str.strip R text)); [discriminate (Hfwd eq_refl)|].
    unfold parse_tokens.
    change (List.length (t1 :: t2 :: ts) <? 2)%nat with false. cbv iota.
    destruct (Str.isdigit R (last (t1 :: t2 :: ts) [])) eqn:Hd;
      [|reflexivity]. cbn [negb].
    destruct (Str.int R (last (t1 :: t2 :: ts) [])) as [n|e] eqn:Hn;
      [|reflexivity].
    apply (int_nonneg R _ _ Hd) in Hn.
    destruct (Z.ltb_spec n 0); [lia|].
    assert (Hfront : Forall token (removelast (t1 :: t2 :: ts)))
      by (apply front_tokens; [discriminate | exact Htok]).
    change (removelast (t1 :: t2 :: ts))
      with (t1 :: removelast (t2 :: ts)) in *.
    rewrite (strip_join _ _ Hfront).
    inversion Hfront as [|? ? Ht1 _]; subst.
    destruct (token_chars t1 Ht1) as (c & t' & E1 & _ & _).
    destruct (join_head t1 (removelast (t2 :: ts)) c t' E1) as (rest & Hj).
    rewrite Hj. reflexivity.
Qed.

Lemma parse_tokens_snoc (ws : list Str.text) (d : Str.text) :
  ws <> [] ->
  parse_tokens R (ws ++ [d])
  = if negb (Str.isdigit R d) then Raise (ValueError msg_not_integer)
    else match Str.int R d with
         | Raise e => Raise e
         | Ok amount => Ok (Str.join [32%N] ws, amount)
         end.
Proof.
  intros Hne.
  assert (E : parse_tokens R (ws ++ [d])
              = if negb (Str.isdigit R (last (ws ++ [d]) []))
                then Raise (ValueError msg_not_integer)
                else match Str.int R (last (ws ++ [d]) []) with
                     | Raise e => Raise e
                     | Ok amount =>
                         Ok (Str.join [32%N] (removelast (ws ++ [d])), amount)
                     end).
  { destruct ws as [|w [|w2 ws]]; [contradiction | reflexivity | reflexivity]. }
  now rewrite E, last_last, removelast_last.
Qed.

(** What a successful parse returns as the item. *)
Lemma parsed_item_words (text it : Str.text) (amt : Z) :
  parse_expense_message R text = Ok (it, amt) ->
  exists ws, ws <> [] /\ Forall token ws /\ it = Str.join [32%N] ws.
Proof.
  rewrite parse_tokens_correct. pose proof (split_tokens text) as Htok.
  destruct (Str.split R text) as [|t1 [|t2 ts]]; try discriminate.
  unfold parse_tokens.
  destruct (negb (Str.isdigit R (last (t1 :: t2 :: ts) [])));
    [discriminate|].
  destruct (Str.int R (last (t1 :: t2 :: ts) [])); [|discriminate].
  intros [= <- _]. exists (removelast (t1 :: t2 :: ts)).
  split; [discriminate|]. split; [|reflexivity].
  apply front_tokens; [discriminate | exact Htok].
Qed.

End TokenFacts.

(** X9. [parse_expense_message] is a function of the tokens of the text,
    so blanks around and between the words do not matter: no token gives
    the empty-text error, one token the format error; otherwise the last
    token decides between the not-an-integer error, the error that [int()]
    raises on that token (it has a digit that is not decimal, or more
    digits than the interpreter allows), and success with the tokens before
    it joined by single spaces as the item.  The errors for a negative
    amount and for a missing item are never raised. *)
Theorem parse_reads_tokens (R : Str.runtime) (text : Str.text) :
  parse_expense_message R text = parse_tokens R (Str.split R text) /\
  (forall text', Str.split R text' = Str.split R text ->
                 parse_expense_message R text'
                 = parse_expense_message R text) /\
  (forall e, parse_expense_message R text = Raise e ->
     e = ValueError msg_empty \/ e = ValueError msg_format \/
     e = ValueError msg_not_integer \/
     e = ValueErrorInt (last (Str.split R text) []) \/
     exists n, (640 < n)%N /\ e = ValueErrorDigits (Str.max_str_digits R) n).
Proof.
  split; [apply parse_tokens_correct|]. split.
  - intros text' E. now rewrite !parse_tokens_correct, E.
  - intros e. rewrite parse_tokens_correct.
    unfold parse_tokens.
    destruct (Str.split R text) as [|t1 [|t2 ts]].
    + intros E. injection E as <-. auto.
    + intros E. injection E as <-. auto.
    + destruct (negb (Str.isdigit R (last (t1 :: t2 :: ts) [])));
        [intros E; injection E as <-; auto|].
      destruct (Str.int R (last (t1 :: t2 :: ts) [])) as [n|e'] eqn:Hn;
        [discriminate|].
      intros E. injection E as <-.
      apply int_raises in Hn as [->|Hn]; auto.
Qed.

Lemma parse_reads_tokens_witness :
  let spaced := [160%N] ++ Str.of_string "non" ++ [9%N; 8195%N]
                ++ Str.of_string "5000 " in
  Str.split Str.excerpt spaced = Str.split Str.excerpt (Str.of_string "non 5000") /\
  parse_expense_message Str.excerpt spaced
  = parse_expense_message Str.excerpt (Str.of_string "non 5000").
Proof.
  intros spaced.
  assert (E : Str.split Str.excerpt spaced
              = Str.split Str.excerpt (Str.of_string "non 5000"))
    by reflexivity.
  split; [exact E|].
  exact (proj1 (proj2 (parse_reads_tokens Str.excerpt
                         (Str.of_string "non 5000"))) spaced E).
Defined.

(* ================================================================== *)
(** * Printing amounts *)

Section FormatAmountFacts.

Lemma remove_replace (a b : ascii) (s : string) :
  remove_char b (replace_char a b s) = remove_char b (remove_char a s).
Proof.
  induction s as [|c s IH]; [reflexivity|].
  simpl. destruct (Ascii.eqb_spec c a) as [->|Hca].
  - now rewrite Ascii.eqb_refl.
  - simpl. now rewrite IH.
Qed.

Lemma remove_char_append (c : ascii) (a b : string) :
  remove_char c (a ++ b) = (remove_char c a ++ remove_char c b)%string.
Proof.
  induction a as [|x a IH]; [reflexivity|].
  simpl. destruct (Ascii.eqb x c); simpl; now rewrite IH.
Qed.

Lemma remove_char_absent (c : ascii) (s : string) :
  forall_chars (fun x => negb (Ascii.eqb x c)) s = true ->
  remove_char c s = s.
Proof.
  induction s as [|x s IH]; [reflexivity|].
  simpl. intros H. apply andb_prop in H as [Hx Hs].
  apply negb_true_iff in Hx. now rewrite Hx, IH.
Qed.

Lemma decimal_not_comma (c : ascii) :
  isdecimal_char c = true -> Ascii.eqb c "," = false.
Proof. destruct c as [[] [] [] [] [] [] [] []]; try discriminate; reflexivity. Qed.

Lemma decimal_not_space (c : ascii) :
  isdecimal_char c = true -> negb (Ascii.eqb c " ") = true.
Proof. destruct c as [[] [] [] [] [] [] [] []]; try discriminate; reflexivity. Qed.

Lemma remove_char_cons (c x : ascii) (s : string) :
  remove_char c (String x s)
  = if Ascii.eqb x c then remove_char c s else String x (remove_char c s).
Proof. reflexivity. Qed.

Lemma commas_cons (c : ascii) (s : string) :
  commas (String c s)
  = if ((0 <? String.length s) && (String.length s mod 3 =? 0))%nat
    then String c (String "," (commas s))
    else String c (commas s).
Proof. reflexivity. Qed.

Lemma remove_commas (s : string) :
  forall_chars isdecimal_char s = true -> remove_char "," (commas s) = s.
Proof.
  induction s as [|c s IH]; [reflexivity|].
  intros H. simpl in H. apply andb_prop in H as [Hc Hs].
  rewrite commas_cons.
  destruct ((0 <? String.length s) && (String.length s mod 3 =? 0))%nat;
    rewrite !remove_char_cons, (decimal_not_comma c Hc);
    rewrite ?Ascii.eqb_refl, (IH Hs); reflexivity.
Qed.

Lemma digits_no_space (n : N) : remove_char " " (digits n) = digits n.
Proof.
  apply remove_char_absent.
  exact (forall_chars_impl _ _ _ decimal_not_space (digits_decimal n)).
Qed.

Lemma format_comma_unseparated (n : Z) :
  remove_char " " (remove_char "," (format_comma n)) = str_int n.
Proof.
  unfold format_comma, str_int. destruct (n <? 0); simpl;
    now rewrite (remove_commas _ (digits_decimal _)), digits_no_space.
Qed.

Lemma format_amount_unspaced (n : Z) :
  remove_char " " (format_amount n) = (str_int n ++ "so'm")%string.
Proof.
  unfold format_amount.
  rewrite remove_replace, !remove_char_append, format_comma_unseparated.
  reflexivity.
Qed.

Lemma length_append (a b : string) :
  String.length (a ++ b) = (String.length a + String.length b)%nat.
Proof. induction a as [|c a IH]; simpl; [reflexivity | now rewrite IH]. Qed.

Lemma append_inv_tail (a b c : string) :
  (a ++ c)%string = (b ++ c)%string -> a = b.
Proof.
  revert b. induction a as [|x a IH]; intros [|y b] H.
  - reflexivity.
  - apply (f_equal String.length) in H. simpl in H.
    rewrite length_append in H. lia.
  - apply (f_equal String.length) in H. simpl in H.
    rewrite length_append in H. lia.
  - simpl in H. injection H as -> H. f_equal. now apply IH.
Qed.

Lemma str_int_inj (n m : Z) : str_int n = str_int m -> n = m.
Proof.
  unfold str_int.
  destruct (Z.ltb_spec n 0), (Z.ltb_spec m 0); intros E.
  - injection E as E. apply (f_equal value) in E.
    rewrite !value_digits in E. lia.
  - exfalso. pose proof (digits_decimal (Z.to_N m)) as Hd. rewrite <- E in Hd.
    discriminate Hd.
  - exfalso. pose proof (digits_decimal (Z.to_N n)) as Hd. rewrite E in Hd.
    discriminate Hd.
  - apply (f_equal value) in E. rewrite !value_digits in E. lia.
Qed.

End FormatAmountFacts.

(** X11. [format_amount] keeps the sign and the digits of the amount:
    taking the spaces out of its result leaves [str(amount)] followed by
    "so'm".  So two different amounts never print alike. *)
Theorem format_amount_keeps_digits (n m : Z) :
  remove_char " " (format_amount n) = (str_int n ++ "so'm")%string /\
  (format_amount n = format_amount m -> n = m).
Proof.
  split; [apply format_amount_unspaced|].
  intros E. apply (f_equal (remove_char " ")) in E.
  rewrite !format_amount_unspaced in E.
  now apply str_int_inj, (append_inv_tail _ _ "so'm").
Qed.

Lemma format_amount_keeps_digits_witness :
  remove_char " " (format_amount 1234567) = "1234567so'm" /\
  (format_amount 5000 = format_amount 5000 -> 5000 = 5000).
Proof.
  split.
  - exact (proj1 (format_amount_keeps_digits 1234567 0)).
  - exact (proj2 (format_amount_keeps_digits 5000 5000)).
Defined.

Section ThousandsFacts.

Lemma of_uint_acc_horner (l : Decimal.uint) (p : positive) :
  N.pos (Pos.of_uint_acc l p) = horner_uint (N.pos p) l.
Proof.
  revert p. induction l; intros p; cbn [Pos.of_uint_acc horner_uint];
    try reflexivity; rewrite IHl; f_equal; lia.
Qed.

Lemma of_uint_horner (d : Decimal.uint) : N.of_uint d = horner_uint 0 d.
Proof.
  unfold N.of_uint.
  induction d; cbn [Pos.of_uint horner_uint]; try reflexivity;
    try exact IHd; now rewrite of_uint_acc_horner.
Qed.

Lemma horner_uint_string (s : string) (d : Decimal.uint) (acc : N) :
  NilEmpty.uint_of_string s = Some d -> horner_uint acc d = horner acc s.
Proof.
  revert d acc. induction s as [|c s IH]; intros d acc H.
  - injection H as <-. reflexivity.
  - simpl in H. destruct (NilEmpty.uint_of_string s) as [d'|];
      [|discriminate].
    specialize (IH d').
    destruct c as [[] [] [] [] [] [] [] []]; try discriminate;
      injection H as <-; cbn [horner_uint horner]; rewrite (IH _ eq_refl);
      first [ f_equal; f_equal; reflexivity
            | f_equal; change (N_of_ascii "0" - 48)%N with 0%N;
              now rewrite N.add_0_r ].
Qed.

Lemma decimal_parses (s : string) :
  forall_chars isdecimal_char s = true ->
  exists d, NilEmpty.uint_of_string s = Some d.
Proof.
  induction s as [|c s IH]; [now exists Decimal.Nil|].
  simpl. intros H. apply andb_prop in H as [Hc Hs].
  destruct (IH Hs) as [d ->].
  destruct c as [[] [] [] [] [] [] [] []]; try discriminate; simpl; eauto.
Qed.

Lemma value_horner (s : string) :
  forall_chars isdecimal_char s = true -> value s = horner 0 s.
Proof.
  intros H. destruct (decimal_parses s H) as [d Hd].
  unfold value. rewrite Hd, of_uint_horner. now apply horner_uint_string.
Qed.

Lemma horner_append (a b : string) (acc : N) :
  horner acc (a ++ b) = horner (horner acc a) b.
Proof.
  revert acc. induction a as [|c a IH]; intros acc; [reflexivity|].
  simpl. now rewrite IH.
Qed.

Lemma horner_shift (b : string) (acc : N) :
  (horner acc b = acc * 10 ^ N.of_nat (String.length b) + horner 0 b)%N.
Proof.
  revert acc. induction b as [|c b IH]; intros acc.
  - simpl. lia.
  - cbn [horner String.length].
    rewrite (IH (10 * acc + _)%N), (IH (10 * 0 + _)%N).
    replace (N.of_nat (S (String.length b)))
      with (N.succ (N.of_nat (String.length b))) by lia.
    rewrite N.pow_succ_r'. lia.
Qed.

(** A number of at least one digit that does not open with a zero is
    printed as it is read. *)
Lemma digits_of_value (c : ascii) (s : string) :
  forall_chars isdecimal_char (String c s) = true ->
  Ascii.eqb c "0" = false ->
  digits (value (String c s)) = String c s.
Proof.
  intros H Hc. destruct (decimal_parses _ H) as [d Hd].
  unfold value, digits. rewrite Hd, Unsigned.to_of.
  assert (Hn : Decimal.unorm d = d).
  { simpl in Hd. destruct (NilEmpty.uint_of_string s) as [d'|];
      [|discriminate].
    destruct c as [[] [] [] [] [] [] [] []]; try discriminate;
      injection Hd as <-; reflexivity. }
  rewrite Hn. now apply NilEmpty.sus.
Qed.

Lemma to_uint_head (q : N) :
  (0 < q)%N ->
  exists c s, digits q = String c s /\ Ascii.eqb c "0" = false.
Proof.
  intros Hq. unfold digits.
  assert (Hn : Decimal.unorm (N.to_uint q) = N.to_uint q).
  { rewrite <- (Unsigned.of_to q) at 2. now rewrite Unsigned.to_of. }
  assert (Hv : N.of_uint (N.to_uint q) = q) by apply Unsigned.of_to.
  destruct (N.to_uint q) as [|l|l|l|l|l|l|l|l|l|l] eqn:E;
    try (simpl; eauto; fail).
  - simpl in Hv. lia.
  - exfalso. rewrite DecimalFacts.unorm_D0 in Hn.
    unfold Decimal.unorm in Hn.
    pose proof (DecimalFacts.nb_digits_nzhead l) as Hle.
    destruct (Decimal.nzhead l) eqn:Hz; try discriminate Hn.
    + injection Hn as <-. simpl in Hv. lia.
    + injection Hn as ->. simpl in Hle. lia.
Qed.

Lemma length_zeros (k : nat) : String.length (zeros k) = k.
Proof. induction k; simpl; [reflexivity | now rewrite IHk]. Qed.

Lemma digits_below_1000 (r : N) :
  (r < 1000)%N -> (String.length (digits r) <= 3)%nat.
Proof.
  intros Hr.
  assert (Hall : forallb
            (fun k => (String.length (digits (N.of_nat k)) <=? 3)%nat)
            (List.seq 0%nat 1000%nat) = true) by (vm_compute; reflexivity).
  rewrite forallb_forall in Hall.
  specialize (Hall (N.to_nat r)).
  replace (N.of_nat (N.to_nat r)) with r in Hall by lia.
  apply Nat.leb_le, Hall, in_seq. lia.
Qed.

Lemma length_zfill3 (r : N) :
  (r < 1000)%N -> String.length (zfill 3 (digits r)) = 3%nat.
Proof.
  intros Hr. pose proof (digits_below_1000 r Hr).
  unfold zfill. rewrite length_append, length_zeros. lia.
Qed.

(** The digits of a number of a thousand or more: those of its
    thousands, then three digits for the rest. *)
Lemma digits_thousands (q r : N) :
  (0 < q)%N -> (r < 1000)%N ->
  digits (1000 * q + r) = (digits q ++ zfill 3 (digits r))%string.
Proof.
  intros Hq Hr. destruct (to_uint_head q Hq) as (c & s & E & Hc).
  assert (Hdec : forall_chars isdecimal_char
                   (digits q ++ zfill 3 (digits r)) = true).
  { now rewrite forall_chars_append, digits_decimal,
      (zfill_decimal 3 _ (digits_decimal r)). }
  assert (Hv : value (digits q ++ zfill 3 (digits r)) = (1000 * q + r)%N).
  { rewrite (value_horner _ Hdec), horner_append, horner_shift.
    rewrite <- !value_horner
      by (apply digits_decimal || apply zfill_decimal, digits_decimal).
    rewrite value_digits, value_zfill, (length_zfill3 r Hr).
    change (10 ^ N.of_nat 3)%N with 1000%N. lia. }
  rewrite <- Hv. rewrite E in *.
  change (String c s ++ zfill 3 (digits r))%string
    with (String c (s ++ zfill 3 (digits r))) in *.
  now apply digits_of_value.
Qed.

Lemma commas_short (s : string) :
  (String.length s <= 3)%nat -> commas s = s.
Proof.
  destruct s as [|c1 [|c2 [|c3 [|c4 s]]]]; try reflexivity.
  simpl. lia.
Qed.

Lemma commas_last_group (a b : string) :
  a <> EmptyString -> String.length b = 3%nat ->
  commas (a ++ b) = (commas a ++ String "," b)%string.
Proof.
  intros Ha Hb. destruct a as [|c a]; [contradiction|]. clear Ha.
  revert c. induction a as [|c2 a IH]; intros c.
  - change (String c EmptyString ++ b)%string with (String c b).
    rewrite commas_cons, Hb, (commas_short b) by lia. reflexivity.
  - change (String c (String c2 a) ++ b)%string
      with (String c (String c2 a ++ b)).
    rewrite !commas_cons, (IH c2), length_append, Hb.
    replace ((0 <? String.length (String c2 a) + 3)
             && ((String.length (String c2 a) + 3) mod 3 =? 0))%nat
      with ((0 <? String.length (String c2 a))
            && (String.length (String c2 a) mod 3 =? 0))%nat.
    + destruct ((0 <? String.length (String c2 a))
                && (String.length (String c2 a) mod 3 =? 0))%nat;
        reflexivity.
    + f_equal.
      replace (String.length (String c2 a) + 3)%nat
        with (String.length (String c2 a) + 1 * 3)%nat by lia.
      now rewrite Nat.Div0.mod_add.
Qed.

Lemma replace_char_append (a b : ascii) (s t : string) :
  replace_char a b (s ++ t)
  = (replace_char a b s ++ replace_char a b t)%string.
Proof. induction s as [|c s IH]; simpl; [reflexivity | now rewrite IH]. Qed.

Lemma replace_comma_decimal (s : string) :
  forall_chars isdecimal_char s = true -> replace_char "," " " s = s.
Proof.
  induction s as [|c s IH]; [reflexivity|].
  simpl. intros H. apply andb_prop in H as [Hc Hs].
  now rewrite (decimal_not_comma c Hc), (IH Hs).
Qed.

End ThousandsFacts.

(** X12. [format_amount] groups the digits by threes from the right:
    an amount from 0 to 999 prints as its digits followed by " so'm", and
    an amount of a thousand or more prints as its thousands print, then
    a space, then the three digits of the rest. *)
Theorem format_amount_groups_thousands (q r : Z) :
  0 <= r < 1000 ->
  format_amount r = (str_int r ++ " so'm")%string /\
  (1 <= q ->
   exists head,
     format_amount q = (head ++ " so'm")%string /\
     format_amount (1000 * q + r)
     = (head ++ " " ++ zfill 3 (str_int r) ++ " so'm")%string).
Proof.
  intros Hr.
  assert (Er : (r <? 0) = false) by (apply Z.ltb_ge; lia).
  assert (Hr' : (Z.to_N r < 1000)%N) by lia.
  split.
  - unfold format_amount, format_comma, str_int. rewrite Er.
    rewrite (commas_short _ (digits_below_1000 _ Hr')).
    rewrite replace_char_append, (replace_comma_decimal _ (digits_decimal _)).
    reflexivity.
  - intros Hq.
    exists (replace_char "," " " (commas (digits (Z.to_N q)))).
    assert (Eq : (q <? 0) = false) by (apply Z.ltb_ge; lia).
    assert (En : (1000 * q + r <? 0) = false) by (apply Z.ltb_ge; lia).
    unfold format_amount, format_comma, str_int. rewrite Er, Eq, En.
    split; [now rewrite replace_char_append|].
    replace (Z.to_N (1000 * q + r)) with (1000 * Z.to_N q + Z.to_N r)%N
      by lia.
    rewrite digits_thousands by lia.
    rewrite commas_last_group
      by (apply digits_nonempty || now apply length_zfill3).
    rewrite !replace_char_append.
    change (replace_char "," " " (String "," (zfill 3 (digits (Z.to_N r)))))
      with (String " " (replace_char "," " " (zfill 3 (digits (Z.to_N r))))).
    rewrite (replace_comma_decimal _ (zfill_decimal 3 _ (digits_decimal _))).
    rewrite !append_assoc. reflexivity.
Qed.

Lemma format_amount_groups_thousands_witness :
  0 <= 67 < 1000 /\ 1 <= 12345 /\
  format_amount 12345 = "12 345 so'm" /\
  format_amount 12345067 = "12 345 067 so'm".
Proof.
  assert (Hr : 0 <= 67 < 1000) by lia.
  assert (Hq : 1 <= 12345) by lia.
  repeat (split; [assumption|]).
  destruct (format_amount_groups_thousands 12345 67 Hr) as [_ Hbig].
  destruct (Hbig Hq) as (head & Hh & Hn).
  split; [reflexivity|].
  change 12345067 with (1000 * 12345 + 67). rewrite Hn.
  assert (E : head = "12 345").
  { apply (append_inv_tail _ _ " so'm"). now rewrite <- Hh. }
  rewrite E. reflexivity.
Defined.

(* ================================================================== *)
(** * The report text *)

(** X13. [format_expenses_with_total] prints one line per row, in the
    order given and without looking at the dates, and closes with the
    total line, whose amount is the sum of the amounts of the rows (0 for
    no rows). *)
Theorem report_totals_the_rows (em_dash money_bag : string)
    (rows : list (string * Z * string)) :
  format_expenses_with_total em_dash money_bag rows
  = join newline
      (map (fun row => expense_line em_dash (fst (fst row)) (snd (fst row)))
           rows
       ++ [total_line money_bag
             (fold_right Z.add 0 (map (fun row => snd (fst row)) rows))]).
Proof.
  assert (Hloop : forall rs lines t,
            fold_left (report_step em_dash) rs (lines, t)
            = (lines ++ map (fun row => expense_line em_dash (fst (fst row))
                                          (snd (fst row))) rs,
               t + fold_right Z.add 0 (map (fun row => snd (fst row)) rs))).
  { induction rs as [|[[it amt] d] rs IH]; intros lines t.
    - simpl. now rewrite app_nil_r, Z.add_0_r.
    - simpl. rewrite IH. rewrite <- app_assoc. simpl. f_equal. lia. }
  unfold format_expenses_with_total. now rewrite Hloop.
Qed.

(* ================================================================== *)
(** * Writing an amount and reading it back *)

Section RoundTripFacts.
Variable R : Str.runtime.

Lemma of_string_app (a b : string) :
  Str.of_string (a ++ b) = Str.of_string a ++ Str.of_string b.
Proof.
  unfold Str.of_string. induction a as [|c a IH]; [reflexivity|].
  simpl. now rewrite IH.
Qed.

Lemma of_string_length (s : string) :
  List.length (Str.of_string s) = String.length s.
Proof.
  unfold Str.of_string. induction s as [|c s IH]; [reflexivity|].
  simpl. now rewrite IH.
Qed.

(** An ASCII decimal digit, seen as a code point. *)
Lemma decimal_code (c : ascii) :
  isdecimal_char c = true ->
  Str.ascii_digit (N_of_ascii c) = true /\
  (N_of_ascii c <? 128)%N = true /\
  Str.isdigit_char R (N_of_ascii c) = true /\
  Str.isspace_char R (N_of_ascii c) = false /\
  Str.c_space (N_of_ascii c) = false /\
  (1 <= N_of_ascii c - 48 \/ c = "0"%char)%N.
Proof.
  destruct c as [[] [] [] [] [] [] [] []]; try discriminate; intros _;
    repeat split; try reflexivity; (left; vm_compute; discriminate)
    || (right; reflexivity).
Qed.

Lemma transform_decimal (s : string) :
  forall_chars isdecimal_char s = true ->
  Str.transform R (Str.of_string s) = Str.of_string s.
Proof.
  intros H. unfold Str.transform.
  assert (E : forallb (fun c => c <? 128)%N (Str.of_string s) = true).
  { induction s as [|c s IH]; [reflexivity|].
    simpl in H. apply andb_prop in H as [Hc Hs].
    destruct (decimal_code c Hc) as (_ & Ha & _).
    change (Str.of_string (String c s))
      with (N_of_ascii c :: Str.of_string s).
    cbn [forallb]. now rewrite Ha, (IH Hs). }
  now rewrite E.
Qed.

Lemma isdigit_decimal (s : string) :
  s <> EmptyString -> forall_chars isdecimal_char s = true ->
  Str.isdigit R (Str.of_string s) = true.
Proof.
  intros Hne H.
  assert (Hall : forallb (Str.isdigit_char R) (Str.of_string s) = true).
  { clear Hne. induction s as [|c s IH]; [reflexivity|].
    simpl in H. apply andb_prop in H as [Hc Hs].
    destruct (decimal_code c Hc) as (_ & _ & Hd & _).
    change (Str.of_string (String c s))
      with (N_of_ascii c :: Str.of_string s).
    cbn [forallb]. now rewrite Hd, (IH Hs). }
  destruct s; [contradiction | exact Hall].
Qed.

Lemma is_token_decimal (s : string) :
  s <> EmptyString -> forall_chars isdecimal_char s = true ->
  Str.is_token R (Str.of_string s) = true.
Proof.
  intros Hne H.
  assert (Hall : forallb (fun c => negb (Str.isspace_char R c))
                   (Str.of_string s) = true).
  { clear Hne. induction s as [|c s IH]; [reflexivity|].
    simpl in H. apply andb_prop in H as [Hc Hs].
    destruct (decimal_code c Hc) as (_ & _ & _ & Hd & _).
    change (Str.of_string (String c s))
      with (N_of_ascii c :: Str.of_string s).
    cbn [forallb]. now rewrite Hd, (IH Hs). }
  destruct s; [contradiction | exact Hall].
Qed.

(** Reading a run of ASCII digits: the value they spell, and their
    number. *)
Lemma scan_decimal (s : string) (acc n : N) :
  forall_chars isdecimal_char s = true ->
  Str.scan false acc n (Str.of_string s)
  = Some (horner acc s, (n + N.of_nat (String.length s))%N, []).
Proof.
  revert acc n. induction s as [|c s IH]; intros acc n H.
  - simpl. now rewrite N.add_0_r.
  - simpl in H. apply andb_prop in H as [Hc Hs].
    destruct (decimal_code c Hc) as (Hd & _).
    change (Str.of_string (String c s))
      with (N_of_ascii c :: Str.of_string s).
    cbn [Str.scan]. rewrite Hd, (IH _ _ Hs). cbn [horner String.length].
    do 2 f_equal. f_equal. lia.
Qed.

Lemma int_decimal (s : string) :
  s <> EmptyString -> forall_chars isdecimal_char s = true ->
  Str.int R (Str.of_string s)
  = if Str.too_many R (N.of_nat (String.length s))
    then Raise (ValueErrorDigits (Str.max_str_digits R)
                  (N.of_nat (String.length s)))
    else Ok (Z.of_N (horner 0 s)).
Proof.
  intros Hne H. rewrite (int_of_digits R _ (isdigit_decimal s Hne H)).
  rewrite (transform_decimal s H).
  destruct s as [|c s]; [contradiction|].
  pose proof H as H'. simpl in H'. apply andb_prop in H' as [Hc _].
  destruct (decimal_code c Hc) as (Hd & _ & _ & _ & Hsp & _).
  change (Str.of_string (String c s))
    with (N_of_ascii c :: Str.of_string s).
  cbn [Str.drop_c_space]. rewrite Hsp. unfold Str.unsigned. rewrite Hd.
  change (N_of_ascii c :: Str.of_string s)
    with (Str.of_string (String c s)).
  rewrite (scan_decimal _ 0 0 H). rewrite N.add_0_l.
  now destruct (Str.too_many R (N.of_nat (String.length (String c s)))).
Qed.

(** [int(str(n))] for a natural number [n]. *)
Lemma int_digits (n : N) :
  Str.int R (Str.of_string (digits n))
  = if Str.too_many R (N.of_nat (String.length (digits n)))
    then Raise (ValueErrorDigits (Str.max_str_digits R)
                  (N.of_nat (String.length (digits n))))
    else Ok (Z.of_N n).
Proof.
  rewrite (int_decimal _ (digits_nonempty n) (digits_decimal n)).
  now rewrite <- (value_horner _ (digits_decimal n)), value_digits.
Qed.

Lemma str_int_is_token (n : Z) :
  Str.is_token R (Str.of_string (str_int n)) = true.
Proof.
  unfold str_int. destruct (n <? 0).
  - pose proof (is_token_decimal _ (digits_nonempty (Z.to_N (- n)))
                  (digits_decimal _)) as H.
    change (Str.of_string (String "-" (digits (Z.to_N (- n)))))
      with (45%N :: Str.of_string (digits (Z.to_N (- n)))).
    destruct (Str.of_string (digits (Z.to_N (- n)))); [discriminate H|].
    exact H.
  - apply is_token_decimal; [apply digits_nonempty | apply digits_decimal].
Qed.



End RoundTripFacts.

(** X10. Writing an item of one or more words and an amount as
    "words amount" and parsing the text gives the item and the amount
    back when the amount is not negative and its digits are not more than
    the interpreter allows; a negative amount written this way is rejected
    with the not-an-integer error. *)
Theorem parse_round_trip (R : Str.runtime) (ws : list Str.text) (amount : Z) :
  ws <> [] -> Forall (fun t => Str.is_token R t = true) ws ->
  let literal := Str.of_string (str_int amount) in
  parse_expense_message R (Str.join [32%N] (ws ++ [literal]))
  = if amount <? 0 then Raise (ValueError msg_not_integer)
    else if Str.too_many R (N.of_nat (List.length literal))
    then Raise (ValueErrorDigits (Str.max_str_digits R)
                  (N.of_nat (List.length literal)))
    else Ok (Str.join [32%N] ws, amount).
Proof.
  intros Hne Hws literal.
  assert (Htok : Forall (fun t => Str.is_token R t = true) (ws ++ [literal])).
  { apply Forall_app. split; [exact Hws|].
    constructor; [apply str_int_is_token | constructor]. }
  rewrite parse_tokens_correct, (split_join R _ Htok).
  rewrite (parse_tokens_snoc R _ _ Hne).
  unfold literal. rewrite of_string_length. unfold str_int.
  destruct (Z.ltb_spec amount 0) as [Hlt|Hge].
  - reflexivity.
  - rewrite (isdigit_decimal R _ (digits_nonempty _) (digits_decimal _)).
    cbn [negb]. rewrite int_digits.
    destruct (Str.too_many R _); [reflexivity|]. now rewrite Z2N.id.
Qed.

Lemma parse_round_trip_witness :
  let ws := [Str.of_string "qora"; Str.of_string "non"] in
  ws <> [] /\
  Forall (fun t => Str.is_token Str.excerpt t = true) ws /\
  parse_expense_message Str.excerpt (Str.of_string "qora non 5000")
  = Ok (Str.of_string "qora non", 5000) /\
  parse_expense_message Str.excerpt (Str.of_string "qora non -5000")
  = Raise (ValueError msg_not_integer).
Proof.
  intros ws.
  assert (Hne : ws <> []) by discriminate.
  assert (Hws : Forall (fun t => Str.is_token Str.excerpt t = true) ws)
    by (repeat constructor).
  repeat (split; [assumption|]).
  split.
  - exact (parse_round_trip Str.excerpt ws 5000 Hne Hws).
  - exact (parse_round_trip Str.excerpt ws (-5000) Hne Hws).
Defined.

(* ================================================================== *)
(** * More about the handlers *)

Section MoreHandlerFacts.

Lemma result_try_except (body : Conn unit) (db : database) :
  result (try_except body) db = Ok tt.
Proof. unfold result, try_except. now destruct (body db) as [[] ?]. Qed.

Lemma undo_rows (db : database) (u : Z) :
  store_inv db ->
  rows_of (state_after (cmd_undo u) db)
  = match hd_error (rev (ledger u db)) with
    | None => rows_of db
    | Some r =>
        filter (fun x => negb ((user_id x =? u) && (id x =? id r)))
               (rows_of db)
    end.
Proof.
  intros H. unfold cmd_undo. rewrite state_after_try_except.
  unfold state_after, bind. rewrite (get_last_expense_run _ _ H).
  destruct (hd_error (rev (ledger u db))) as [r|]; [|reflexivity].
  cbn [option_map quintuple].
  pose proof (delete_expense_run (opened db) u (id r)
                (store_inv_opened db H)) as Hd.
  cbn [rows_of opened rows seq_of seq] in Hd. rewrite Hd. reflexivity.
Qed.

Lemma filter_drop_last (front : list expense) (r : expense) :
  StronglySorted Z.lt (map id (front ++ [r])) ->
  filter (fun x => negb (id x =? id r)) (front ++ [r]) = front.
Proof.
  intros Hs. rewrite filter_app. simpl. rewrite Z.eqb_refl. simpl.
  rewrite app_nil_r. apply filter_everything. intros x Hx.
  apply negb_true_iff, Z.eqb_neq. intros E.
  assert (x = r).
  { apply (ids_unique (front ++ [r])); auto; apply in_or_app;
      [now left | right; now left]. }
  subst x. rewrite map_app in Hs. simpl in Hs.
  clear E. induction front as [|a front IH]; [contradiction|].
  simpl in Hs. inversion Hs as [|? ? Hl Hall]; subst.
  destruct Hx as [->|Hx]; [|now apply IH].
  rewrite Forall_forall in Hall.
  specialize (Hall (id r)). assert (id r < id r); [|lia].
  apply Hall, in_or_app. right. now left.
Qed.

Lemma last_split (l : list expense) (r : expense) :
  hd_error (rev l) = Some r -> exists front, l = front ++ [r].
Proof.
  destruct l as [|a l] using rev_ind; [discriminate|].
  rewrite rev_app_distr. simpl. intros [= ->]. now exists l.
Qed.

Lemma undo_ledger (db : database) (u v : Z) :
  store_inv db ->
  ledger v (state_after (cmd_undo u) db)
  = if v =? u then removelast (ledger u db) else ledger v db.
Proof.
  intros H. unfold ledger at 1. rewrite (undo_rows db u H).
  destruct (hd_error (rev (ledger u db))) as [r|] eqn:E.
  - rewrite filter_filter.
    destruct (Z.eqb_spec v u) as [->|Hne].
    + destruct (last_split _ _ E) as [front Hfront].
      rewrite Hfront, removelast_last.
      rewrite <- (filter_drop_last front r)
        by (rewrite <- Hfront; now apply ledger_sorted).
      rewrite <- Hfront. unfold ledger. rewrite filter_filter.
      apply filter_ext. intros x.
      destruct (user_id x =? u), (id x =? id r); reflexivity.
    + apply filter_ext. intros x.
      destruct (Z.eqb_spec (user_id x) u), (Z.eqb_spec (user_id x) v);
        simpl; rewrite ?andb_false_r; try reflexivity; congruence.
  - destruct (Z.eqb_spec v u) as [->|Hne]; [|reflexivity].
    fold (ledger u db).
    destruct (ledger u db) as [|a l] using rev_ind; [reflexivity|].
    rewrite rev_app_distr in E. discriminate E.
Qed.

End MoreHandlerFacts.

(** X14. [cmd_undo] returns normally and removes the newest record of
    the caller, the last entry of the caller's listing, and nothing else:
    on an empty ledger nothing changes, and the ledgers of the other users
    stay as they are. *)
Theorem undo_removes_newest (db : database) (u : Z) :
  store_inv db ->
  let db' := state_after (cmd_undo u) db in
  result (cmd_undo u) db = Ok tt /\
  ledger u db' = removelast (ledger u db) /\
  (forall v, v <> u -> ledger v db' = ledger v db).
Proof.
  intros H db'. split; [apply result_try_except|]. split.
  - unfold db'. now rewrite (undo_ledger db u u H), Z.eqb_refl.
  - intros v Hne. unfold db'. rewrite (undo_ledger db u v H).
    now destruct (Z.eqb_spec v u).
Qed.

Lemma undo_removes_newest_witness :
  store_inv scenario /\
  map triple (ledger 1 (state_after (cmd_undo 1) scenario))
  = [("bread", 5000, "2024-03-01"); ("coffee", 12000, "2024-03-15")].
Proof.
  assert (Hinv : store_inv scenario) by store_inv_by_computation.
  split; [assumption|].
  destruct (undo_removes_newest scenario 1 Hinv) as (_ & Hl & _).
  rewrite Hl. reflexivity.
Defined.

Section TextMessageFacts.
Variable R : Str.runtime.

Lemma undo_seq (db : database) (u : Z) :
  store_inv db -> seq_of (state_after (cmd_undo u) db) = seq_of db.
Proof.
  intros H. unfold cmd_undo. rewrite state_after_try_except.
  unfold state_after, bind. rewrite (get_last_expense_run _ _ H).
  destruct (hd_error (rev (ledger u db))) as [r|]; [|reflexivity].
  cbn [option_map quintuple].
  pose proof (delete_expense_run (opened db) u (id r)
                (store_inv_opened db H)) as Hd.
  cbn [rows_of opened rows seq_of seq] in Hd. rewrite Hd. reflexivity.
Qed.

Lemma handler_returns (u : Z) (text : Str.text) (today : string)
    (db : database) :
  result (handle_expense_message R u text today) db = Ok tt.
Proof.
  unfold handle_expense_message.
  destruct (parse_expense_message R text) as [[it amt]|e] eqn:E;
    [apply result_try_except|].
  now rewrite (parse_raises_ValueError R text e E).
Qed.

(** The rows after a text message, by what becomes of it. *)
Lemma text_message_rows (db : database) (u : Z) (text : Str.text)
    (today : string) :
  store_inv db ->
  rows_of (state_after (handle_expense_message R u text today) db)
  = match parse_expense_message R text with
    | Ok (it, amt) =>
        match Str.utf8 it with
        | Some s =>
            if in_int64 amt
            then rows_of db ++ [mkExpense (seq_of db + 1) u s amt today None]
            else rows_of db
        | None => rows_of db
        end
    | Raise _ => rows_of db
    end.
Proof.
  intros H. rewrite (text_message_state R _ _ _ _ H).
  destruct (parse_expense_message R text) as [[it amt]|e]; [|reflexivity].
  destruct (Str.utf8 it) as [s|]; [|reflexivity].
  unfold state_after. rewrite (add_expense_run _ _ _ _ _ _ H).
  now destruct (in_int64 amt).
Qed.

(** Each handler leaves the rows as they are, drops some of them, or
    appends one that a parsed message describes. *)
Lemma handle_rows_cases (db : database) (upd : update) :
  store_inv db ->
  (exists p, rows_of (state_after (handle R upd) db)
             = filter p (rows_of db)) \/
  (exists u text today it s amt,
      parse_expense_message R text = Ok (it, amt) /\
      Str.utf8 it = Some s /\ in_int64 amt = true /\
      rows_of (state_after (handle R upd) db)
      = rows_of db ++ [mkExpense (seq_of db + 1) u s amt today None]).
Proof.
  intros H.
  assert (Hsame : forall rs, rs = rows_of db ->
            exists p, rs = filter p (rows_of db)).
  { intros rs E. exists (fun _ => true). rewrite E. symmetry.
    now apply filter_everything. }
  destruct upd as [u|u today|u y m|u|u|u text today]; simpl.
  - left. apply Hsame. unfold cmd_hisobot.
    rewrite state_after_try_except, state_after_discard.
    unfold state_after. now rewrite (get_all_expenses_run _ _ H).
  - left. apply Hsame. unfold cmd_bugun.
    rewrite state_after_try_except, state_after_discard.
    now rewrite (get_expenses_by_date_run _ _ _ H).
  - left. apply Hsame. unfold cmd_oylik.
    rewrite state_after_try_except, state_after_discard.
    unfold state_after. now rewrite (get_month_total_run _ _ _ _ H).
  - left. rewrite (undo_rows db u H).
    destruct (hd_error (rev (ledger u db))); [eauto | now apply Hsame].
  - left. unfold cmd_clear.
    rewrite state_after_try_except, state_after_discard.
    unfold state_after. rewrite (delete_all_run _ _ H). simpl. eauto.
  - rewrite (text_message_rows _ _ _ _ H).
    destruct (parse_expense_message R text) as [[it amt]|e] eqn:E;
      [|left; now apply Hsame].
    destruct (Str.utf8 it) as [s|] eqn:Es; [|left; now apply Hsame].
    destruct (in_int64 amt) eqn:Ea; [|left; now apply Hsame].
    right. exists u, text, today, it, s, amt. auto.
Qed.

End TextMessageFacts.

(** X15. A text message that parses, is stored, and is followed by
    [cmd_undo] of the same user leaves the rows of the table as they were
    before the message; only the id counter has moved on by one.  The
    message is stored when the item has a UTF-8 encoding and the amount
    is below 2^63.  When it is not stored, the rows stay as they are and
    [cmd_undo] removes the record the user had entered before. *)
Theorem insert_then_undo (R : Str.runtime) (db : database) (u : Z)
    (text : Str.text) (today : string) (it : Str.text) (amt : Z) :
  store_inv db ->
  parse_expense_message R text = Ok (it, amt) ->
  let db1 := state_after (handle_expense_message R u text today) db in
  let db2 := state_after (cmd_undo u) db1 in
  (forall s, Str.utf8 it = Some s -> amt < 2 ^ 63 ->
     rows_of db1
     = rows_of db ++ [mkExpense (seq_of db + 1) u s amt today None] /\
     rows_of db2 = rows_of db /\
     seq_of db2 = seq_of db + 1) /\
  (Str.utf8 it = None \/ 2 ^ 63 <= amt ->
     rows_of db1 = rows_of db /\
     ledger u db2 = removelast (ledger u db)).
Proof.
  intros H E db1 db2.
  pose proof (text_message_state R db u text today H) as E1.
  fold db1 in E1. rewrite E in E1.
  assert (Hpos : 0 <= amt) by now apply parse_expense_message_ok in E.
  split.
  - intros s Es Hlt. rewrite Es in E1.
    assert (Hfit : in_int64 amt = true) by (apply in_int64_spec; lia).
    pose proof (store_inv_add db u s amt today None H) as H1.
    rewrite <- E1 in H1.
    assert (R1 : rows_of db1
                 = rows_of db ++ [mkExpense (seq_of db + 1) u s amt today None])
      by (rewrite E1; now apply rows_after_add).
    assert (S1 : seq_of db1 = seq_of db + 1)
      by (rewrite E1; now apply seq_after_add).
    split; [exact R1|]. split.
    + unfold db2. rewrite (undo_rows db1 u H1).
      assert (L1 : ledger u db1
                   = ledger u db
                     ++ [mkExpense (seq_of db + 1) u s amt today None])
        by (rewrite E1; now apply ledger_after_add).
      rewrite L1, rev_app_distr. cbn [rev app hd_error id].
      rewrite R1, filter_app. cbn [filter user_id id].
      rewrite !Z.eqb_refl. cbn [andb negb]. rewrite app_nil_r.
      apply filter_everything. intros x Hx.
      pose proof (ids_below_seq db H) as Hle. rewrite Forall_forall in Hle.
      specialize (Hle x Hx).
      destruct (Z.eqb_spec (id x) (seq_of db + 1)); [lia|].
      now rewrite andb_false_r.
    + unfold db2. now rewrite (undo_seq db1 u H1).
  - intros Hbad.
    assert (E1' : db1 = opened db).
    { destruct (Str.utf8 it) as [s|]; [|exact E1].
      destruct Hbad as [Hnone|Hbig]; [discriminate Hnone|].
      rewrite E1. apply state_after_refused_add; [exact H|].
      apply not_true_iff_false. rewrite in_int64_spec. lia. }
    split; [now rewrite E1'|].
    unfold db2. rewrite E1'.
    rewrite (undo_ledger (opened db) u u (store_inv_opened db H)).
    now rewrite Z.eqb_refl.
Qed.

Lemma insert_then_undo_witness :
  let text := Str.of_string "choy 3000" in
  store_inv scenario /\
  parse_expense_message Str.excerpt text = Ok (Str.of_string "choy", 3000) /\
  Str.utf8 (Str.of_string "choy") = Some "choy" /\ 3000 < 2 ^ 63 /\
  rows_of (state_after (cmd_undo 1)
             (state_after
                (handle_expense_message Str.excerpt 1 text "2024-04-02")
                scenario))
  = rows_of scenario.
Proof.
  intros text.
  assert (Hinv : store_inv scenario) by store_inv_by_computation.
  assert (E : parse_expense_message Str.excerpt text
              = Ok (Str.of_string "choy", 3000)) by reflexivity.
  assert (Es : Str.utf8 (Str.of_string "choy") = Some "choy") by reflexivity.
  assert (Hlt : 3000 < 2 ^ 63) by lia.
  repeat (split; [assumption|]).
  exact (proj1 (proj2 (proj1 (insert_then_undo Str.excerpt scenario 1
                                text "2024-04-02" (Str.of_string "choy") 3000
                                Hinv E) "choy" Es Hlt))).
Defined.

(** X16. [handle_expense_message] always returns normally.  A text that
    does not parse leaves the file exactly as it is, without even creating
    the table.  A text that parses appends one record for the sender, with
    the encoded item, the parsed amount, the given date and no category,
    when the item has a UTF-8 encoding and the amount is below 2^63;
    otherwise the insert fails inside the handler and no record is
    added. *)
Theorem text_message_effect (R : Str.runtime) (db : database) (u : Z)
    (text : Str.text) (today : string) :
  store_inv db ->
  let db' := state_after (handle_expense_message R u text today) db in
  result (handle_expense_message R u text today) db = Ok tt /\
  match parse_expense_message R text with
  | Ok (it, amt) =>
      match Str.utf8 it with
      | Some s =>
          if amt <? 2 ^ 63
          then rows_of db'
               = rows_of db ++ [mkExpense (seq_of db + 1) u s amt today None]
          else db' = opened db
      | None => db' = opened db
      end
  | Raise _ => db' = db
  end.
Proof.
  intros H db'. split; [apply handler_returns|].
  pose proof (text_message_state R db u text today H) as E1.
  fold db' in E1.
  destruct (parse_expense_message R text) as [[it amt]|e] eqn:E;
    [|exact E1].
  assert (Hpos : 0 <= amt) by now apply parse_expense_message_ok in E.
  destruct (Str.utf8 it) as [s|]; [|exact E1].
  destruct (Z.ltb_spec amt (2 ^ 63)) as [Hlt|Hge]; rewrite E1.
  - apply rows_after_add; [exact H|]. apply in_int64_spec. lia.
  - apply state_after_refused_add; [exact H|].
    apply not_true_iff_false. rewrite in_int64_spec. lia.
Qed.

Lemma text_message_effect_witness :
  let send text :=
    state_after
      (handle_expense_message Str.excerpt 1 (Str.of_string text)
         "2024-04-02") in
  store_inv None /\
  send "salom" None = None /\
  rows_of (send "non 5000" None) = [mkExpense 1 1 "non" 5000 "2024-04-02" None] /\
  rows_of (send "uy 9223372036854775808" scenario) = rows_of scenario.
Proof.
  intros send.
  assert (Hinv : store_inv None) by exact I.
  assert (Hsc : store_inv scenario) by store_inv_by_computation.
  split; [assumption|].
  pose proof (proj2 (text_message_effect Str.excerpt None 1
                       (Str.of_string "salom") "2024-04-02" Hinv)) as Hbad.
  pose proof (proj2 (text_message_effect Str.excerpt None 1
                       (Str.of_string "non 5000") "2024-04-02" Hinv)) as Hgood.
  pose proof (proj2 (text_message_effect Str.excerpt scenario 1
                       (Str.of_string "uy 9223372036854775808") "2024-04-02"
                       Hsc)) as Hbig.
  split; [exact Hbad|]. split; [exact Hgood|].
  change (send "uy 9223372036854775808" scenario = opened scenario) in Hbig.
  rewrite Hbig. reflexivity.
Defined.

(** X17. The report handlers [cmd_hisobot], [cmd_bugun] and [cmd_oylik]
    return normally and change no record and no id counter. *)
Theorem reports_change_nothing (db : database) (u year month : Z)
    (today : string) :
  store_inv db ->
  (result (cmd_hisobot u) db = Ok tt /\
   state_after (cmd_hisobot u) db = opened db) /\
  (result (cmd_bugun u today) db = Ok tt /\
   state_after (cmd_bugun u today) db = opened db) /\
  (result (cmd_oylik u year month) db = Ok tt /\
   state_after (cmd_oylik u year month) db = opened db) /\
  rows_of (opened db) = rows_of db /\ seq_of (opened db) = seq_of db.
Proof.
  intros H. unfold cmd_hisobot, cmd_bugun, cmd_oylik.
  rewrite !result_try_except, !state_after_try_except, !state_after_discard.
  rewrite (get_expenses_by_date_run _ _ _ H).
  unfold state_after.
  rewrite (get_all_expenses_run _ _ H), (get_month_total_run _ _ _ _ H).
  repeat split.
Qed.

Lemma reports_change_nothing_witness :
  store_inv scenario /\
  rows_of (state_after (cmd_oylik 1 2024 3) scenario) = rows_of scenario.
Proof.
  assert (Hinv : store_inv scenario) by store_inv_by_computation.
  split; [assumption|].
  destruct (reports_change_nothing scenario 1 2024 3 "2024-03-01" Hinv)
    as (_ & _ & (_ & Ho) & Hrows & _).
  rewrite Ho. exact Hrows.
Defined.

(** X18. Every record in a state the bot reaches is well formed: its
    item is the encoding of one or more words separated by single spaces
    (so the parsed item is not empty and carries no blank at either end),
    its amount is from 0 to 2^63 - 1 and it has no category. *)
Theorem reachable_records_well_formed (R : Str.runtime) (db : database) :
  reachable R db -> Forall (well_formed R) (rows_of db).
Proof.
  induction 1 as [|db Hr IH|db upd Hr IH].
  - constructor.
  - pose proof (proj1 (reachable_kept R db Hr)) as H.
    unfold state_after, init_db, _init_db_sync.
    now rewrite (ensure_schema_run db H).
  - pose proof (proj1 (reachable_kept R db Hr)) as H.
    destruct (handle_rows_cases R db upd H)
      as [[p ->] | (u & text & today & it & s & amt & E & Es & Ea & ->)].
    + rewrite Forall_forall in *. intros r Hin. apply IH.
      apply filter_In in Hin. tauto.
    + apply Forall_app. split; [exact IH|]. constructor; [|constructor].
      split; [|split; [|reflexivity]].
      * destruct (parsed_item_words R _ _ _ E) as (ws & Hne & Hws & ->).
        exists ws. auto.
      * apply parse_expense_message_ok in E as (_ & _ & _ & _ & Hpos).
        apply in_int64_spec in Ea. simpl. lia.
Qed.

Lemma reachable_records_well_formed_witness :
  let text := Str.of_string "  qora" ++ [160%N; 1078%N] ++ Str.of_string " 5000" in
  let db := state_after (handle Str.excerpt
                           (TextMessage 1 text "2024-03-01"))
              (state_after init_db None) in
  reachable Str.excerpt db /\
  map amount (rows_of db) = [5000] /\
  Forall (well_formed Str.excerpt) (rows_of db).
Proof.
  intros text db.
  assert (Hr : reachable Str.excerpt db)
    by (apply reach_update, reach_init).
  split; [exact Hr|]. split; [reflexivity|].
  exact (reachable_records_well_formed Str.excerpt db Hr).
Defined.

(* ================================================================== *)
(** * Owner scope *)

Section OwnerScopeFacts.

Lemma in_month_ledger (db : database) (u y m : Z) :
  filter (in_month u y m) (rows_of db)
  = filter (fun r => like (ym_prefix y m ++ "%") (date r)) (ledger u db).
Proof. unfold ledger. now rewrite filter_filter. Qed.

Lemma ledger_after_add_other (db : database) (u v : Z) (it : string)
    (amt : Z) (d : string) (c : option string) :
  store_inv db -> v <> u ->
  ledger u (state_after (add_expense v it amt d c) db) = ledger u db.
Proof.
  intros H Hne. unfold ledger, state_after.
  rewrite (add_expense_run _ _ _ _ _ _ H).
  destruct (in_int64 amt); [|reflexivity]. cbn [snd rows_of rows].
  rewrite filter_app. simpl.
  destruct (Z.eqb_spec v u); [contradiction | apply app_nil_r].
Qed.

Lemma partial_sums_app (xs ys : list Z) (acc : Z) :
  partial_sums acc (xs ++ ys)
  = partial_sums acc xs ++ partial_sums (acc + fold_right Z.add 0 xs) ys.
Proof.
  revert acc. induction xs as [|x xs IH]; intros acc; simpl.
  - now rewrite Z.add_0_r.
  - rewrite IH. do 3 f_equal. lia.
Qed.

(** One more row: the running totals fit when they did and the new
    total does. *)
Lemma sums_fit_snoc (rs : list expense) (r : expense) :
  sums_fit (rs ++ [r]) = sums_fit rs && in_int64 (total rs + amount r).
Proof.
  unfold sums_fit, total. rewrite map_app, partial_sums_app, forallb_app.
  simpl. now rewrite andb_true_r.
Qed.

Lemma total_snoc (rs : list expense) (r : expense) :
  total (rs ++ [r]) = total rs + amount r.
Proof.
  unfold total. rewrite map_app, fold_right_app. simpl.
  induction (map amount rs) as [|x l IH]; simpl; lia.
Qed.

Lemma ledger_after_delete_other (db : database) (u v eid : Z) :
  store_inv db -> v <> u ->
  ledger u (state_after (delete_expense v eid) db) = ledger u db.
Proof.
  intros H Hne. unfold ledger, state_after.
  rewrite (delete_expense_run _ _ _ H). simpl. rewrite filter_filter.
  apply filter_ext. intros x.
  destruct (Z.eqb_spec (user_id x) v), (Z.eqb_spec (user_id x) u);
    simpl; rewrite ?andb_false_r; try reflexivity; congruence.
Qed.

(** What the six queries return is a function of the caller's ledger. *)
Lemma queries_read_own_ledger (db db' : database) (u y m : Z) (d : string) :
  store_inv db -> store_inv db' -> ledger u db' = ledger u db ->
  result (get_all_expenses u) db' = result (get_all_expenses u) db /\
  result (get_expenses_by_date u d) db'
  = result (get_expenses_by_date u d) db /\
  result (get_expenses_by_month u y m) db'
  = result (get_expenses_by_month u y m) db /\
  result (get_month_total u y m) db' = result (get_month_total u y m) db /\
  result (get_last_expense u) db' = result (get_last_expense u) db /\
  result (get_month_category_totals u y m) db'
  = result (get_month_category_totals u y m) db.
Proof.
  intros H H' E.
  rewrite !get_expenses_by_date_result by assumption. unfold result.
  rewrite !get_all_expenses_run, !get_expenses_by_month_run,
    !get_month_total_run, !get_last_expense_run,
    !get_month_category_totals_run by assumption.
  cbn [fst]. rewrite !in_month_ledger, E. repeat split.
Qed.

End OwnerScopeFacts.

(** X19. What one user writes is invisible to every other user: after
    an insert, a delete by id or a delete-all by user [v], each of the six
    queries returns to any other user [u] what it returned before. *)
Theorem other_users_writes_invisible (db db' : database) (u v : Z)
    (it : string) (amt : Z) (d : string) (c : option string) (eid : Z)
    (year month : Z) (day : string) :
  store_inv db -> v <> u ->
  db' = state_after (add_expense v it amt d c) db \/
  db' = state_after (delete_expense v eid) db \/
  db' = state_after (delete_all_expenses v) db ->
  result (get_all_expenses u) db' = result (get_all_expenses u) db /\
  result (get_expenses_by_date u day) db'
  = result (get_expenses_by_date u day) db /\
  result (get_expenses_by_month u year month) db'
  = result (get_expenses_by_month u year month) db /\
  result (get_month_total u year month) db'
  = result (get_month_total u year month) db /\
  result (get_last_expense u) db' = result (get_last_expense u) db /\
  result (get_month_category_totals u year month) db'
  = result (get_month_category_totals u year month) db.
Proof.
  intros H Hne Hw.
  assert (Hru : (u =? v) = false) by (apply Z.eqb_neq; congruence).
  apply queries_read_own_ledger; [exact H | |];
    destruct Hw as [->|[->| ->]].
  - now apply store_inv_add.
  - now apply store_inv_delete.
  - now apply store_inv_delete_all.
  - now apply ledger_after_add_other.
  - now apply ledger_after_delete_other.
  - now rewrite (ledger_after_delete_all db v u H), Hru.
Qed.

Lemma other_users_writes_invisible_witness :
  store_inv scenario /\ 2 <> 1 /\
  result (get_month_total 1 2024 3)
    (state_after (add_expense 2 "taksi" 40000 "2024-03-20" None) scenario)
  = Ok 17000.
Proof.
  assert (Hinv : store_inv scenario) by store_inv_by_computation.
  assert (Hne : 2 <> 1) by discriminate.
  repeat (split; [assumption|]).
  destruct (other_users_writes_invisible scenario
              (state_after (add_expense 2 "taksi" 40000 "2024-03-20" None)
                 scenario)
              1 2 "taksi" 40000 "2024-03-20" None 0 2024 3 "2024-03-01"
              Hinv Hne (or_introl eq_refl))
    as (_ & _ & _ & Hm & _).
  rewrite Hm. reflexivity.
Defined.

(** X20. Inserting a record for a user with a date of the month raises
    what [get_month_total] returns for that user and month by exactly the
    amount of the record, as long as the amount and the new total are in
    the 64-bit range; when the new total is not, the call raises "integer
    overflow". *)
Theorem insert_raises_month_total (db : database) (u : Z) (it : string)
    (amt : Z) (c : option string) (year month : Z) (day : string) (n : Z) :
  store_inv db -> - 2 ^ 63 <= amt < 2 ^ 63 ->
  result (get_month_total u year month) db = Ok n ->
  result (get_month_total u year month)
    (state_after (add_expense u it amt (ym_prefix year month ++ day) c) db)
  = if in_int64 (n + amt) then Ok (n + amt)
    else Raise (OperationalError "integer overflow").
Proof.
  intros H Hamt Hn. apply in_int64_spec in Hamt.
  pose proof (store_inv_add db u it amt (ym_prefix year month ++ day) c H)
    as H'.
  unfold result in *. rewrite (get_month_total_run _ _ _ _ H) in Hn.
  rewrite (get_month_total_run _ _ _ _ H'). cbn [fst] in *.
  rewrite (rows_after_add _ _ _ _ _ _ H Hamt), filter_app.
  cbn [filter]. rewrite in_month_prefix. unfold dated_in.
  cbn [user_id date]. rewrite Z.eqb_refl, prefix_append. cbn [andb].
  unfold checked_total in *. rewrite sums_fit_snoc, total_snoc.
  cbn [amount].
  destruct (sums_fit (filter (in_month u year month) (rows_of db)));
    [|discriminate].
  injection Hn as <-. reflexivity.
Qed.

Lemma insert_raises_month_total_witness :
  store_inv scenario /\ - 2 ^ 63 <= 3000 < 2 ^ 63 /\
  result (get_month_total 1 2024 3) scenario = Ok 17000 /\
  result (get_month_total 1 2024 3)
    (state_after (add_expense 1 "choy" 3000 "2024-03-31" None) scenario)
  = Ok 20000.
Proof.
  assert (Hinv : store_inv scenario) by store_inv_by_computation.
  assert (Hamt : - 2 ^ 63 <= 3000 < 2 ^ 63) by lia.
  assert (Hn : result (get_month_total 1 2024 3) scenario = Ok 17000)
    by reflexivity.
  repeat (split; [assumption|]).
  exact (insert_raises_month_total scenario 1 "choy" 3000 None 2024 3 "31"
           17000 Hinv Hamt Hn).
Defined.


